(** * The beta task runner of nornir, and the [template_file] task

    A shallow embedding of [nornir/beta/core/runner.py] and of
    [nornir/plugins/tasks/text/template_file.py].

    Python objects that the source mutates in place ([Result], through
    [result.ntd = ntd]) live in a store and are handled by reference, so that
    two references to one object stay aliases.  Everything else is a value.
    Code that can raise is written in a state-and-exception monad over that
    store. *)

From stdpp Require Import gmap strings list fin_maps.
From Stdlib Require Import ZArith.

Set Default Proof Using "Type".

(** ** Python values and exceptions *)

(** Address of a [Result] object in the store. *)
Abbreviation loc := nat.

(** The values a task may hand back ([Any] in the source).  [VResult l] is a
    reference to the [Result] object at [l]: it is the only kind of value
    for which [isinstance(v, Result)] holds. *)
Inductive value :=
| VNone
| VBool (b : bool)
| VInt (z : Z)
| VStr (s : string)
| VResult (l : loc).

Definition isinstance_Result (v : value) : bool :=
  match v with VResult _ => true | _ => false end.

(** Exception classes.  The first three (and every class declared directly
    under [BaseException]) do not derive from [Exception]. *)
Inductive exc_class :=
| KeyboardInterrupt
| SystemExit
| GeneratorExit
| UserBaseException (cls : string)
| ValueError
| TypeError
| KeyError
| RuntimeError
| OSError
| UserException (cls : string).

Definition derives_from_Exception (c : exc_class) : bool :=
  match c with
  | KeyboardInterrupt | SystemExit | GeneratorExit | UserBaseException _ => false
  | _ => true
  end.

(** ** Data model *)

(** Modelled from the spec: [Host] of [nornir.core.inventory] is not part of
    the sources at hand; the runner reads nothing of it but its [name]. *)
Record Host := mkHost {
  host_name : string;
  host_data : list (string * string)
}.

(** Modelled from the spec: the [Nornir] object of [nornir.core].  The runner
    reads [nornir.config.core.num_workers], [nornir.inventory.hosts] (a dict,
    kept here in its iteration order) and [nornir.data.failed_hosts]. *)
Record Nornir := mkNornir {
  config_core_num_workers : nat;
  inventory_hosts : list (string * Host);
  data_failed_hosts : gset string
}.

Record NornirTaskData := mkNornirTaskData {
  host : Host;
  nornir : Nornir;
  name : string
}.

(** Whatever a [raise] can carry.  [FutureException] is the class the runner
    declares itself; it derives from [Exception]. *)
Inductive BaseException :=
| PyExc (cls : exc_class) (msg : string)
| FutureException (exc : BaseException) (ntd : NornirTaskData).

(** [isinstance(e, Exception)], the test behind [except Exception]. *)
Definition isinstance_Exception (e : BaseException) : bool :=
  match e with
  | PyExc c _ => derives_from_Exception c
  | FutureException _ _ => true
  end.

Definition logging_INFO : Z := 20.

Record Result := mkResult {
  ntd : NornirTaskData;
  data : value;
  sub_results : list loc;
  changed : bool;
  diff : string;
  exception : option BaseException;
  severity_level : Z
}.

(** [Result(data=result, ntd=ntd)]: the other fields take their defaults. *)
Definition Result_of_data (result : value) (d : NornirTaskData) : Result :=
  mkResult d result [] false EmptyString None logging_INFO.

(** [Result(ntd=ntd, exception=e)]. *)
Definition Result_of_exception (d : NornirTaskData) (e : BaseException) : Result :=
  mkResult d VNone [] false EmptyString (Some e) logging_INFO.

(** [r.ntd = d] *)
Definition set_ntd (d : NornirTaskData) (r : Result) : Result :=
  mkResult d (data r) (sub_results r) (changed r) (diff r) (exception r)
           (severity_level r).

(** [AggregatedResults] is a dict from host name to [Result] with a [name]
    attribute. *)
Record AggregatedResults := mkAggregatedResults {
  agg_name : string;
  entries : gmap string loc
}.

(** ** Store, and the monad of code that may raise *)

(** The [Result] objects alive, by address; a new object gets the next
    address. *)
Abbreviation heap := (list Result).

Inductive outcome (A : Type) :=
| Return (a : A)
| Raise (e : BaseException).
Arguments Return {A} a.
Arguments Raise {A} e.

(** A computation over a state [St]: it returns or raises, and in both cases
    leaves a state behind. *)
Definition M (St A : Type) : Type := St → outcome A * St.

Definition ret {St A} (a : A) : M St A := λ s, (Return a, s).

Definition raise {St A} (e : BaseException) : M St A := λ s, (Raise e, s).

Definition bind {St A B} (c : M St A) (k : A → M St B) : M St B :=
  λ s, match c s with
       | (Return a, s') => k a s'
       | (Raise e, s') => (Raise e, s')
       end.

Notation "'let*' x ':=' c 'in' k" := (bind c (λ x, k))
  (at level 10, x name, c at level 100, k at level 200).

(** [try: body  except Exception as e: handler e].  An exception that is not
    an instance of [Exception] passes through. *)
Definition try_except_Exception {St A} (body : M St A)
    (handler : BaseException → M St A) : M St A :=
  λ s, match body s with
       | (Return a, s') => (Return a, s')
       | (Raise e, s') =>
           if isinstance_Exception e then handler e s' else (Raise e, s')
       end.

(** Constructing a [Result] object. *)
Definition new_Result (r : Result) : M heap loc :=
  λ h, (Return (length h), h ++ [r]).

(** ** Callables *)

(** What the runner asks of a callable besides calling it: whether it was
    declared with [async def], and the [__qualname__] of its class.  Every
    function object is an instance of the one class [function]. *)
Inductive callable_kind :=
| PyFunction (qualname : string)
| PyCoroutineFunction (qualname : string)
| PyInstance (class_qualname : string).

Definition iscoroutinefunction (k : callable_kind) : bool :=
  match k with PyCoroutineFunction _ => true | _ => false end.

Definition class_qualname_of (k : callable_kind) : string :=
  match k with
  | PyFunction _ | PyCoroutineFunction _ => "function"
  | PyInstance c => c
  end.

Definition Kwargs := list (string * value).

(** The behaviour of a task when called (or awaited) with an invocation
    context and keyword arguments. *)
Definition TaskBody := NornirTaskData → Kwargs → M heap value.

Record Task := mkTask {
  kind : callable_kind;
  call : TaskBody
}.

(** ** Wrappers around one invocation *)

Definition _result_wrapper (result : value) (d : NornirTaskData) : M heap loc :=
  match result with
  | VResult l => λ h, (Return l, alter (set_ntd d) l h)
  | _ => new_Result (Result_of_data result d)
  end.

Definition _func_wrapper (func : TaskBody) (d : NornirTaskData)
    (kwargs : Kwargs) : M heap loc :=
  try_except_Exception
    (let* result := func d kwargs in _result_wrapper result d)
    (λ e, new_Result (Result_of_exception d e)).

Definition _async_func_wrapper (func : TaskBody) (d : NornirTaskData)
    (kwargs : Kwargs) : M heap loc :=
  try_except_Exception
    (let* result := func d kwargs in _result_wrapper result d)
    (λ e, new_Result (Result_of_exception d e)).

Definition _futures_wrapper (task : TaskBody) (d : NornirTaskData)
    (kwargs : Kwargs) : M heap value :=
  try_except_Exception
    (task d kwargs)
    (λ e, raise (FutureException e d)).

(** ** The runner *)

(** The attributes [name], [nornir] and [severity_level] of the runner are
    [runner_name], [runner_nornir] and [runner_severity_level] here: the
    short names are those of the fields of [NornirTaskData] and [Result]. *)
Record TaskRunner := mkTaskRunner {
  task : Task;
  runner_name : string;
  runner_nornir : Nornir;
  num_workers : nat;
  runner_severity_level : Z;
  hosts : list Host
}.

(** [name or default] for [name: str = None]: [None] and the empty string
    are both falsy. *)
Definition name_or (name : option string) (default : string) : string :=
  match name with
  | Some s => if decide (s = EmptyString) then default else s
  | None => default
  end.

(** One [for name, host in nornir.inventory.hosts.items()] loop of
    [__init__], appending to [self.hosts] the hosts whose name passes
    [keep]. *)
Definition append_hosts (keep : string → bool) (items : list (string * Host))
    (acc : list Host) : list Host :=
  foldl (λ acc item, if keep item.1 then acc ++ [item.2] else acc) acc items.

Definition TaskRunner_init (t : Task) (n : Nornir) (name : option string)
    (severity : Z) (on_good on_failed : bool) : TaskRunner :=
  let hosts0 : list Host := [] in
  let hosts1 :=
    if on_good
    then append_hosts (λ name, bool_decide (name ∉ data_failed_hosts n))
                      (inventory_hosts n) hosts0
    else hosts0 in
  let hosts2 :=
    if on_failed
    then append_hosts (λ name, bool_decide (name ∈ data_failed_hosts n))
                      (inventory_hosts n) hosts1
    else hosts1 in
  {| task := t;
     runner_name := name_or name (class_qualname_of (kind t));
     runner_nornir := n;
     num_workers := config_core_num_workers n;
     runner_severity_level := severity;
     hosts := hosts2 |}.

(** [NornirTaskData(host=h, nornir=self.nornir, name=self.name)] *)
Definition ntd_for (self : TaskRunner) (h : Host) : NornirTaskData :=
  mkNornirTaskData h (runner_nornir self) (runner_name self).

(** *** The worker pool and the event loop

    [multiprocessing.dummy.Pool] and [asyncio.gather] belong to the Python
    library.  What the runner relies on: every submitted job is run once, to
    its end, in an order the runner does not choose; the results are handed
    back in the order of submission.  [order] is the order in which the jobs
    happen to run (jobs it does not mention run afterwards, in submission
    order; an index met twice or out of range is skipped).  [done_] holds
    the results delivered so far, by index of submission.  A job that lets
    an exception through leaves the dispatch without a list of results: the
    event loop passes the exception on to the caller, and a worker of the
    pool never delivers its result.  The model keeps that exception as the
    outcome of the dispatch. *)
Fixpoint pool_exec (jobs : list (M heap loc)) (order : list nat)
    (done_ : gmap nat loc) : M heap (gmap nat loc) :=
  match order with
  | [] => ret done_
  | i :: order' =>
      match done_ !! i, jobs !! i with
      | None, Some job =>
          let* r := job in pool_exec jobs order' (<[i := r]> done_)
      | _, _ => pool_exec jobs order' done_
      end
  end.

Definition run_jobs (jobs : list (M heap loc)) (order : list nat)
    : M heap (list loc) :=
  let* done_ := pool_exec jobs (order ++ seq 0 (length jobs)) ∅ in
  ret (omap (λ i, done_ !! i) (seq 0 (length jobs))).

Definition _run_async (self : TaskRunner) (kwargs : Kwargs)
    (order : list nat) : M heap (list loc) :=
  let hosts :=
    map (λ h, _async_func_wrapper (call (task self)) (ntd_for self h) kwargs)
        (hosts self) in
  run_jobs hosts order.

Definition _run_sync (self : TaskRunner) (kwargs : Kwargs)
    (order : list nat) : M heap (list loc) :=
  let result_pool :=
    map (λ h, _func_wrapper (call (task self)) (ntd_for self h) kwargs)
        (hosts self) in
  run_jobs result_pool order.

(** [agg_results[r.ntd.host.name] = r]; the key is read from the object as
    it is when the entry is made. *)
Definition agg_store (h : heap) (agg : AggregatedResults) (r : loc)
    : AggregatedResults :=
  match h !! r with
  | Some res =>
      mkAggregatedResults (agg_name agg)
        (<[host_name (host (ntd res)) := r]> (entries agg))
  | None => agg
  end.

Definition run (self : TaskRunner) (kwargs : Kwargs) (order : list nat)
    : M heap AggregatedResults :=
  let* result :=
    (if iscoroutinefunction (kind (task self))
     then _run_async self kwargs order
     else _run_sync self kwargs order) in
  λ h,
    let agg_results := mkAggregatedResults (runner_name self) ∅ in
    (Return (foldl (agg_store h) agg_results result), h).

(** *** Entry points that hand back pending handles

    A handle is the computation that runs when the handle is resolved.  The
    source returns the handles as a set; here they are listed in the order
    of [self.hosts]. *)
Definition async_with_futures (self : TaskRunner) (kwargs : Kwargs)
    : list (M heap value) :=
  map (λ h, _futures_wrapper (call (task self)) (ntd_for self h) kwargs)
      (hosts self).

Definition sync_with_futures (self : TaskRunner) (kwargs : Kwargs)
    : list (M heap loc) :=
  map (λ h, _func_wrapper (call (task self)) (ntd_for self h) kwargs)
      (hosts self).

(** ** [with_retries] *)

(** [range(lo, hi)] *)
Definition py_range (lo hi : Z) : list Z :=
  map (λ k, (lo + Z.of_nat k)%Z) (seq 0 (Z.to_nat (hi - lo))).

Section with_retries.
(** [St] is the state the wrapped callable works on, [Args] what it is
    called with besides [attempt]. *)
Context {St Args : Type}.

Record Callable (X : Type) := mkCallable {
  c_kind : callable_kind;
  c_call : X → M St value
}.
Arguments mkCallable {X} _ _.
Arguments c_kind {X} _.
Arguments c_call {X} _.

Record with_retries := mk_with_retries { attempts : Z }.

(** A [for] loop whose body may [return]: [Some v] stands for [return v],
    [None] for reaching the end of the body.  Falling off the loop, and
    with it off the function, returns [None]. *)
Fixpoint for_returning (body : Z → M St (option value)) (range : list Z)
    : M St value :=
  match range with
  | [] => ret VNone
  | i :: range' =>
      let* r := body i in
      match r with
      | Some v => ret v
      | None => for_returning body range'
      end
  end.

(** The body of the loop, the same in both wrappers: the call inside
    [try], and the handler that re-raises when [i + 1 == self.attempts]. *)
Definition attempt_body (self : with_retries) (func : Args * Z → M St value)
    (args : Args) (i : Z) : M St (option value) :=
  try_except_Exception
    (let* v := func (args, i) in ret (Some v))
    (λ e, if decide (i + 1 = attempts self)%Z then raise e else ret None).

Definition async_wrapper (self : with_retries) (func : Callable (Args * Z))
    : Callable Args :=
  mkCallable (PyCoroutineFunction "with_retries.async_wrapper.<locals>.wrapper")
    (λ args,
       for_returning (attempt_body self (c_call func) args)
                     (py_range 1 (attempts self + 1))).

Definition sync_wrapper (self : with_retries) (func : Callable (Args * Z))
    : Callable Args :=
  mkCallable (PyFunction "with_retries.sync_wrapper.<locals>.wrapper")
    (λ args,
       for_returning (attempt_body self (c_call func) args)
                     (py_range 1 (attempts self + 1))).

(** [with_retries.__call__] *)
Definition with_retries_call (self : with_retries)
    (func : Callable (Args * Z)) : Callable Args :=
  if iscoroutinefunction (c_kind func)
  then async_wrapper self func
  else sync_wrapper self func.
End with_retries.

Arguments mkCallable {St X} _ _.
Arguments c_kind {St X} _.
Arguments c_call {St X} _.
Arguments Callable St X : clear implicits.

(** A callable that behaves as [func] and also notes, in a log kept next to
    the state, the [attempt] of every call it receives. *)
Definition logging_calls {St Args} (func : Callable St (Args * Z))
    : Callable (St * list Z) (Args * Z) :=
  mkCallable (c_kind func)
    (λ x s, let '(o, s') := c_call func x s.1 in (o, (s', s.2 ++ [x.2]))).

(** ** [template_file] *)

Section template_file.
(** [Filter] stands for [Callable[..., str]]; [Merged] for what
    [merge_two_dicts] builds.  [merge_two_dicts] and
    [jinja_helper.render_from_file] come from [nornir.core.helpers], which
    is not part of the sources at hand. *)
Context {Filter Merged : Type}.
Variable merge_two_dicts : Host → Kwargs → Merged.
Variable render_from_file :
  string → string → Host → option (gmap string Filter) → Merged
  → outcome string.

(** [Optional[Dict[str, Callable[..., str]]]] *)
Definition FiltersDict := option (gmap string Filter).

(** Truth value of a [FiltersDict]: [None] and the empty dict are falsy. *)
Definition truthy (d : FiltersDict) : bool :=
  match d with
  | Some m => bool_decide (m ≠ ∅)
  | None => false
  end.

(** [a or b] *)
Definition py_or (a b : FiltersDict) : FiltersDict :=
  if truthy a then a else b.

(** What [template_file] reads of its [task] argument. *)
Record CoreTask := mkCoreTask {
  task_host : Host;
  task_nornir_config_jinja_filters : FiltersDict
}.

(** [Result(host=..., result=...)] of [nornir.core.task]. *)
Record TaskResult := mkTaskResult {
  result_host : Host;
  result : string
}.

Definition template_file (task : CoreTask) (template path : string)
    (jinja_filters : FiltersDict) (kwargs : Kwargs) : outcome TaskResult :=
  let jinja_filters :=
    py_or (py_or jinja_filters (Some ∅))
          (task_nornir_config_jinja_filters task) in
  let merged := merge_two_dicts (task_host task) kwargs in
  match render_from_file template path (task_host task) jinja_filters merged with
  | Return text => Return (mkTaskResult (task_host task) text)
  | Raise e => Raise e
  end.
End template_file.

(** ** Conditions on tasks and jobs used in the statements *)

(** A task that leaves the [Result] objects it finds as they are. *)
Definition keeps_results (func : TaskBody) : Prop :=
  ∀ d kwargs h o h' l r,
    func d kwargs h = (o, h') → h !! l = Some r → h' !! l = Some r.

(** A reference handed back by a task refers to an object of the store. *)
Definition returns_live (func : TaskBody) : Prop :=
  ∀ d kwargs h l h',
    func d kwargs h = (Return (VResult l), h') → is_Some (h' !! l).


(** A job that, when it returns [l], has an object at [l] and has left every
    other object that was there before as it was. *)
Definition framed (job : M heap loc) : Prop :=
  ∀ h l h',
    job h = (Return l, h') →
    is_Some (h' !! l)
    ∧ ∀ l' r, l' ≠ l → h !! l' = Some r → h' !! l' = Some r.

(** Every recorded result is what its job returned in some store, and the
    object it refers to is still as the job left it. *)
Definition attributed (jobs : list (M heap loc)) (done_ : gmap nat loc)
    (h : heap) : Prop :=
  ∀ i l, done_ !! i = Some l →
    ∃ job hi hi' r,
      jobs !! i = Some job ∧ job hi = (Return l, hi')
      ∧ hi' !! l = Some r ∧ h !! l = Some r.

(** A callable that raises an instance of [Exception] at every call. *)
Definition always_raises {St Args} (func : Callable St (Args * Z)) : Prop :=
  ∀ x s, ∃ e s', c_call func x s = (Raise e, s')
                 ∧ isinstance_Exception e = true.

(** ** A small fleet, used for the concrete instances further down *)

Definition host_a : Host := mkHost "a" [].
Definition host_b : Host := mkHost "b" [].
Definition host_c : Host := mkHost "c" [].

(** Three hosts; ["c"] failed earlier. *)
Definition fleet : Nornir :=
  mkNornir 2 [("a", host_a); ("b", host_b); ("c", host_c)] {["c"]}.

(** [def seven(ntd): return 7] *)
Definition task_seven : Task :=
  mkTask (PyFunction "seven") (λ _ _, ret (VInt 7)).

(** [def cached(ntd): return CACHED], where [CACHED] is a [Result] made
    once, before the dispatch; it sits at address 0 of the store
    [store_with_cached]. *)
Definition task_cached : Task :=
  mkTask (PyFunction "cached") (λ _ _, ret (VResult 0)).

Definition store_with_cached : heap :=
  [Result_of_data (VStr "ok") (mkNornirTaskData host_c fleet "earlier")].

(** [def bad(ntd): raise ValueError("boom")] *)
Definition task_bad : Task :=
  mkTask (PyFunction "bad") (λ _ _, raise (PyExc ValueError "boom")).



(** [async def abad(ntd): raise ValueError("boom")] *)
Definition task_abad : Task :=
  mkTask (PyCoroutineFunction "abad") (λ _ _, raise (PyExc ValueError "boom")).

(** Raises for host ["a"], returns 7 for the others. *)
Definition task_bad_on_a : Task :=
  mkTask (PyFunction "bad_on_a")
    (λ d _, if decide (host_name (host d) = "a")
            then raise (PyExc ValueError "boom") else ret (VInt 7)).

(** A callable for [with_retries] that raises on every call. *)
Definition always_failing : Callable unit (unit * Z) :=
  mkCallable (PyFunction "always_failing")
    (λ _, raise (PyExc RuntimeError "no luck")).


(** The runner for [bad_on_a] over the hosts that have not failed. *)
Definition runner_bad_on_a : TaskRunner :=
  TaskRunner_init task_bad_on_a fleet None logging_INFO true false.


(** The runner for [bad] over the hosts that have not failed. *)
Definition runner_bad : TaskRunner :=
  TaskRunner_init task_bad fleet None logging_INFO true false.

(** The runner for [abad] over the hosts that have not failed. *)
Definition runner_abad : TaskRunner :=
  TaskRunner_init task_abad fleet None logging_INFO true false.

(** ** A task under [with_retries]

    [@with_retries(attempts)] put on a task: the runner calls the wrapper
    with the context and the keyword arguments, the wrapper calls the task
    with these and [attempt]. *)
Definition retried (self : with_retries)
    (func : Callable heap ((NornirTaskData * Kwargs) * Z)) : Task :=
  mkTask (c_kind (with_retries_call self func))
         (λ d kwargs, c_call (with_retries_call self func) (d, kwargs)).

(** A callable for [with_retries] that raises at the first attempt and
    returns at the second. *)
Definition second_time_lucky : Callable unit (unit * Z) :=
  mkCallable (PyFunction "second_time_lucky")
    (λ x, if decide (x.2 = 2%Z) then ret (VStr "ok")
          else raise (PyExc OSError "busy")).

(** A callable for [with_retries] that is interrupted at every call. *)
Definition always_interrupted : Callable unit (unit * Z) :=
  mkCallable (PyCoroutineFunction "always_interrupted")
    (λ _, raise (PyExc KeyboardInterrupt EmptyString)).

(** A task for [with_retries] that raises at every attempt. *)
Definition flaky_task : Callable heap ((NornirTaskData * Kwargs) * Z) :=
  mkCallable (PyFunction "flaky_task")
    (λ _, raise (PyExc OSError "unreachable")).

(** ** Further conditions and instances *)



(** An inventory in which two entries hold hosts of one name. *)
Definition twins : Nornir :=
  mkNornir 2
    [("x", mkHost "same" [("site", "north")]);
     ("y", mkHost "same" [("site", "south")])]
    ∅.

(** The runner for [seven] over [twins]. *)
Definition runner_twins : TaskRunner :=
  TaskRunner_init task_seven twins None logging_INFO true false.


(** The runner for [cached] over the hosts of [fleet] that have not
    failed. *)
Definition runner_cached : TaskRunner :=
  TaskRunner_init task_cached fleet None logging_INFO true false.

(** A renderer standing in for [jinja_helper.render_from_file]: it puts the
    names of the filters it is given, in brackets, after the template
    name. *)
Definition render_names (template path : string) (_ : Host)
    (filters : option (gmap string (string → string))) (_ : Kwargs)
    : outcome string :=
  Return (template
          +:+ match filters with
              | Some m => "[" +:+ String.concat "," (map_to_list m).*1 +:+ "]"
              | None => "[]"
              end).

(** A [task] argument for [template_file]: host "a", and a configuration
    with the one filter [upper]. *)
Definition core_task_a : @CoreTask (string → string) :=
  mkCoreTask host_a (Some {["upper" := λ s : string, s]}).



(** * Properties *)

(** ** Unfolding the monad *)

Lemma bind_Return {St A B} (c : M St A) (k : A → M St B) s a s' :
  c s = (Return a, s') → (let* x := c in k x) s = k a s'.
Proof. unfold bind. by intros ->. Qed.

Lemma bind_Raise {St A B} (c : M St A) (k : A → M St B) s e s' :
  c s = (Raise e, s') → (let* x := c in k x) s = (Raise e, s').
Proof. unfold bind. by intros ->. Qed.

Lemma try_Return {St A} (c : M St A) handler s a s' :
  c s = (Return a, s') → try_except_Exception c handler s = (Return a, s').
Proof. unfold try_except_Exception. by intros ->. Qed.

Lemma try_caught {St A} (c : M St A) handler s e s' :
  c s = (Raise e, s') → isinstance_Exception e = true →
  try_except_Exception c handler s = handler e s'.
Proof. unfold try_except_Exception. by intros -> ->. Qed.

Lemma try_passes {St A} (c : M St A) handler s e s' :
  c s = (Raise e, s') → isinstance_Exception e = false →
  try_except_Exception c handler s = (Raise e, s').
Proof. unfold try_except_Exception. by intros -> ->. Qed.

(** The two wrappers of the blocking dispatch differ in calling convention
    only. *)
Lemma _async_func_wrapper_eq func d kwargs :
  _async_func_wrapper func d kwargs = _func_wrapper func d kwargs.
Proof. reflexivity. Qed.

(** ** One invocation *)

Lemma _result_wrapper_plain v d h :
  isinstance_Result v = false →
  _result_wrapper v d h = (Return (length h), h ++ [Result_of_data v d]).
Proof. by destruct v. Qed.

Lemma _func_wrapper_plain func d kwargs h v h1 :
  func d kwargs h = (Return v, h1) → isinstance_Result v = false →
  _func_wrapper func d kwargs h
  = (Return (length h1), h1 ++ [Result_of_data v d]).
Proof.
  intros Hf Hv. unfold _func_wrapper.
  apply try_Return. rewrite (bind_Return _ _ _ _ _ Hf).
  by apply _result_wrapper_plain.
Qed.

Lemma _func_wrapper_Result func d kwargs h l h1 :
  func d kwargs h = (Return (VResult l), h1) →
  _func_wrapper func d kwargs h = (Return l, alter (set_ntd d) l h1).
Proof.
  intros Hf. unfold _func_wrapper.
  apply try_Return. by rewrite (bind_Return _ _ _ _ _ Hf).
Qed.

Lemma _func_wrapper_caught func d kwargs h e h1 :
  func d kwargs h = (Raise e, h1) → isinstance_Exception e = true →
  _func_wrapper func d kwargs h
  = (Return (length h1), h1 ++ [Result_of_exception d e]).
Proof.
  intros Hf He. unfold _func_wrapper.
  rewrite (try_caught _ _ _ e h1); [done| |done].
  by rewrite (bind_Raise _ _ _ _ _ Hf).
Qed.

Lemma _func_wrapper_passes func d kwargs h e h1 :
  func d kwargs h = (Raise e, h1) → isinstance_Exception e = false →
  _func_wrapper func d kwargs h = (Raise e, h1).
Proof.
  intros Hf He. unfold _func_wrapper.
  apply try_passes; [|done]. by rewrite (bind_Raise _ _ _ _ _ Hf).
Qed.

Lemma lookup_snoc_new (h : heap) (r : Result) : (h ++ [r]) !! length h = Some r.
Proof. by rewrite lookup_app_r, Nat.sub_diag. Qed.

(** C6.  When the task, called for the target [H], returns a value [v] that
    is not a [Result], each of [_result_wrapper], [_func_wrapper] and
    [_async_func_wrapper] hands back a newly made [Result] whose [data] is
    [v], whose [exception] is unset, and whose context is the one of this
    invocation, with [H] as its host. *)
Theorem plain_value_becomes_data (self : TaskRunner) (H : Host)
    (kwargs : Kwargs) (h h1 : heap) (v : value) :
  call (task self) (ntd_for self H) kwargs h = (Return v, h1) →
  isinstance_Result v = false →
  ∃ (l : loc) (r : Result),
    _result_wrapper v (ntd_for self H) h1 = (Return l, h1 ++ [r])
    ∧ _func_wrapper (call (task self)) (ntd_for self H) kwargs h
      = (Return l, h1 ++ [r])
    ∧ _async_func_wrapper (call (task self)) (ntd_for self H) kwargs h
      = (Return l, h1 ++ [r])
    ∧ h1 !! l = None
    ∧ (h1 ++ [r]) !! l = Some r
    ∧ data r = v
    ∧ exception r = None
    ∧ ntd r = ntd_for self H
    ∧ host (ntd r) = H.
Proof.
  intros Hcall Hv.
  exists (length h1), (Result_of_data v (ntd_for self H)).
  change (_async_func_wrapper ?f ?d ?k) with (_func_wrapper f d k).
  rewrite (_func_wrapper_plain _ _ _ _ _ _ Hcall Hv).
  rewrite (_result_wrapper_plain _ _ _ Hv).
  repeat split.
  - by apply lookup_ge_None_2.
  - apply lookup_snoc_new.
Qed.

Lemma plain_value_becomes_data_witness :
  ∃ (l : loc) (r : Result),
    _result_wrapper (VInt 7)
      (ntd_for (TaskRunner_init task_seven fleet None logging_INFO true false)
               host_a) []
    = (Return l, [] ++ [r])
    ∧ _func_wrapper (call task_seven)
        (ntd_for (TaskRunner_init task_seven fleet None logging_INFO true false)
                 host_a) [] []
      = (Return l, [] ++ [r])
    ∧ _async_func_wrapper (call task_seven)
        (ntd_for (TaskRunner_init task_seven fleet None logging_INFO true false)
                 host_a) [] []
      = (Return l, [] ++ [r])
    ∧ @nil Result !! l = None
    ∧ ([] ++ [r]) !! l = Some r
    ∧ data r = VInt 7
    ∧ exception r = None
    ∧ ntd r
      = ntd_for (TaskRunner_init task_seven fleet None logging_INFO true false)
                host_a
    ∧ host (ntd r) = host_a.
Proof.
  apply (plain_value_becomes_data
           (TaskRunner_init task_seven fleet None logging_INFO true false)
           host_a [] [] [] (VInt 7)); reflexivity.
Defined.

(** C7.  When the task returns a [Result] object [r] (address [l]), each
    wrapper hands back that same object after writing the context of the
    current invocation into its [ntd] field, whatever context the task had
    put there.  Every other field of the object and every other object is
    left as it was, and doing it again changes nothing. *)
Theorem returned_Result_is_reattributed (func : TaskBody)
    (d : NornirTaskData) (kwargs : Kwargs) (h0 h : heap) (l : loc)
    (r : Result) :
  func d kwargs h0 = (Return (VResult l), h) →
  h !! l = Some r →
  ∃ (h' : heap) (r' : Result),
    _result_wrapper (VResult l) d h = (Return l, h')
    ∧ _func_wrapper func d kwargs h0 = (Return l, h')
    ∧ _async_func_wrapper func d kwargs h0 = (Return l, h')
    ∧ h' !! l = Some r'
    ∧ ntd r' = d
    ∧ data r' = data r
    ∧ sub_results r' = sub_results r
    ∧ changed r' = changed r
    ∧ diff r' = diff r
    ∧ exception r' = exception r
    ∧ severity_level r' = severity_level r
    ∧ (∀ l', l' ≠ l → h' !! l' = h !! l')
    ∧ _result_wrapper (VResult l) d h' = (Return l, h').
Proof.
  intros Hf Hl.
  exists (alter (set_ntd d) l h), (set_ntd d r).
  change (_async_func_wrapper ?f ?x ?k) with (_func_wrapper f x k).
  rewrite (_func_wrapper_Result _ _ _ _ _ _ Hf).
  repeat split.
  - by rewrite list_lookup_alter_eq, Hl.
  - intros l' Hne. by apply list_lookup_alter_ne.
  - simpl. f_equal. rewrite list_alter_alter_eq. by apply list_alter_ext.
Qed.

Lemma returned_Result_is_reattributed_witness :
  ∃ (h' : heap) (r' : Result),
    _result_wrapper (VResult 0) (mkNornirTaskData host_a fleet "cached")
                    store_with_cached = (Return 0, h')
    ∧ _func_wrapper (call task_cached) (mkNornirTaskData host_a fleet "cached")
                    [] store_with_cached = (Return 0, h')
    ∧ _async_func_wrapper (call task_cached)
        (mkNornirTaskData host_a fleet "cached") [] store_with_cached
      = (Return 0, h')
    ∧ h' !! 0 = Some r'
    ∧ ntd r' = mkNornirTaskData host_a fleet "cached"
    ∧ data r' = VStr "ok"
    ∧ sub_results r' = []
    ∧ changed r' = false
    ∧ diff r' = EmptyString
    ∧ exception r' = None
    ∧ severity_level r' = logging_INFO
    ∧ (∀ l', l' ≠ 0 → h' !! l' = store_with_cached !! l')
    ∧ _result_wrapper (VResult 0) (mkNornirTaskData host_a fleet "cached") h'
      = (Return 0, h').
Proof.
  apply (returned_Result_is_reattributed (call task_cached)
           (mkNornirTaskData host_a fleet "cached") [] store_with_cached
           store_with_cached 0
           (Result_of_data (VStr "ok")
              (mkNornirTaskData host_c fleet "earlier")));
    reflexivity.
Defined.

(** ** Which hosts are dispatched *)

Lemma append_hosts_filter keep items acc :
  append_hosts keep items acc
  = acc ++ (filter (λ item, keep item.1 = true) items).*2.
Proof.
  unfold append_hosts. revert acc.
  induction items as [|[nm H] items IH]; intros acc; simpl.
  - by rewrite app_nil_r.
  - rewrite IH, filter_cons. simpl.
    destruct (keep nm) eqn:Hk; case_decide; try done.
    by rewrite <-app_assoc.
Qed.

Lemma hosts_init t n nm sev on_good on_failed :
  hosts (TaskRunner_init t n nm sev on_good on_failed)
  = (if on_good
     then (filter (λ item, item.1 ∉ data_failed_hosts n) (inventory_hosts n)).*2
     else [])
    ++ (if on_failed
        then (filter (λ item, item.1 ∈ data_failed_hosts n) (inventory_hosts n)).*2
        else []).
Proof.
  unfold TaskRunner_init. simpl.
  destruct on_good, on_failed; rewrite ?append_hosts_filter, ?app_nil_r; simpl;
    try done; repeat f_equal;
    apply list_filter_iff; intros [k H]; simpl; by rewrite bool_decide_eq_true.
Qed.



(** Membership in [self.hosts]. *)
Lemma elem_of_hosts_init t n nm sev on_good on_failed (H : Host) :
  H ∈ hosts (TaskRunner_init t n nm sev on_good on_failed)
  ↔ ∃ k : string,
      (k, H) ∈ inventory_hosts n
      ∧ (((k ∉ data_failed_hosts n) ∧ on_good = true)
         ∨ ((k ∈ data_failed_hosts n) ∧ on_failed = true)).
Proof.
  rewrite hosts_init, elem_of_app. split.
  - intros [Hin|Hin].
    + destruct on_good; [|by apply elem_of_nil in Hin].
      apply list_elem_of_fmap in Hin as [[k H'] [-> Hin]].
      apply list_elem_of_filter in Hin as [Hk Hin]. eauto.
    + destruct on_failed; [|by apply elem_of_nil in Hin].
      apply list_elem_of_fmap in Hin as [[k H'] [-> Hin]].
      apply list_elem_of_filter in Hin as [Hk Hin]. eauto.
  - intros (k & Hin & [[Hk ->]|[Hk ->]]); [left|right];
      apply list_elem_of_fmap; exists (k, H); split; try done;
      by apply list_elem_of_filter.
Qed.


(** ** The label of the aggregate *)

Lemma agg_name_foldl h rs agg :
  agg_name (foldl (agg_store h) agg rs) = agg_name agg.
Proof.
  revert agg. induction rs as [|r rs IH]; intros agg; simpl; [done|].
  rewrite IH. unfold agg_store. by destruct (h !! r).
Qed.

Lemma run_agg_name self kwargs order h agg h' :
  run self kwargs order h = (Return agg, h') →
  agg_name agg = runner_name self.
Proof.
  unfold run, bind.
  destruct (if iscoroutinefunction _ then _ else _) as [[rs|e] h1];
    intros [= <- <-]. by rewrite agg_name_foldl.
Qed.

(** An explicit name that is not the empty string is the label. *)
Lemma explicit_name_is_kept t n s sev on_good on_failed :
  s ≠ EmptyString →
  runner_name (TaskRunner_init t n (Some s) sev on_good on_failed) = s.
Proof. intros Hs. simpl. by case_decide. Qed.

(** Without a name, the label is the name of the class of the callable. *)
Lemma derived_name_is_class_qualname t n sev on_good on_failed :
  runner_name (TaskRunner_init t n None sev on_good on_failed)
  = class_qualname_of (kind t).
Proof. reflexivity. Qed.

(** C8, on the code.  Dispatching the function [seven] and dispatching the
    function [bad] without a name give aggregates with one and the same
    label, ["function"]: the label tells nothing about which function was
    run. *)
Theorem derived_label_of_two_functions :
  ∃ (agg1 agg2 : AggregatedResults) (h1 h2 : heap),
    run (TaskRunner_init task_seven fleet None logging_INFO true false) [] [] []
    = (Return agg1, h1)
    ∧ run (TaskRunner_init task_bad fleet None logging_INFO true false) [] [] []
      = (Return agg2, h2)
    ∧ kind task_seven ≠ kind task_bad
    ∧ agg_name agg1 = "function"
    ∧ agg_name agg2 = "function".
Proof.
  destruct (run (TaskRunner_init task_seven fleet None logging_INFO true false)
              [] [] []) as [[agg1|?] h1] eqn:H1; [|by vm_compute in H1].
  destruct (run (TaskRunner_init task_bad fleet None logging_INFO true false)
              [] [] []) as [[agg2|?] h2] eqn:H2; [|by vm_compute in H2].
  exists agg1, agg2, h1, h2. repeat split; try done.
  - by apply run_agg_name in H1.
  - by apply run_agg_name in H2.
Qed.

(** ** [template_file] and an empty filter dict *)

Section template_file_facts.
Context {Filter Merged : Type}.
Variable merge_two_dicts : Host → Kwargs → Merged.
Variable render_from_file :
  string → string → Host → option (gmap string Filter) → Merged
  → outcome string.

Lemma py_or_falsy (a b : @FiltersDict Filter) :
  truthy a = false → py_or a b = b.
Proof. unfold py_or. by intros ->. Qed.

Lemma truthy_empty : truthy (Some (∅ : gmap string Filter)) = false.
Proof. simpl. apply bool_decide_eq_false. by intros H; apply H. Qed.

(** The filters that reach the renderer when the caller passes none or an
    empty dict: those of the configuration. *)
Lemma filters_fall_back (cfg : @FiltersDict Filter) :
  py_or (py_or None (Some ∅)) cfg = cfg
  ∧ py_or (py_or (Some ∅) (Some ∅)) cfg = cfg.
Proof.
  split.
  - rewrite (py_or_falsy None) by done. apply py_or_falsy, truthy_empty.
  - rewrite (py_or_falsy (Some ∅)) by apply truthy_empty.
    apply py_or_falsy, truthy_empty.
Qed.

(** C10.  Calling [template_file] with [jinja_filters={}] gives what
    calling it with [jinja_filters=None] gives: in both cases the template
    is rendered with the [jinja_filters] of the configuration, so that an
    empty dict does not switch the configured filters off. *)
Theorem empty_filters_are_no_filters_given (task : CoreTask)
    (template path : string) (kwargs : Kwargs) :
  template_file merge_two_dicts render_from_file task template path
                (Some ∅) kwargs
  = template_file merge_two_dicts render_from_file task template path
                  None kwargs
  ∧ template_file merge_two_dicts render_from_file task template path
                  (Some ∅) kwargs
    = match render_from_file template path (task_host task)
              (task_nornir_config_jinja_filters task)
              (merge_two_dicts (task_host task) kwargs) with
      | Return text => Return (mkTaskResult (task_host task) text)
      | Raise e => Raise e
      end.
Proof.
  unfold template_file.
  destruct (filters_fall_back (task_nornir_config_jinja_filters task))
    as [-> ->].
  done.
Qed.
End template_file_facts.

(** ** [with_retries] *)

Lemma py_range_cons lo hi :
  (lo < hi)%Z → py_range lo hi = lo :: py_range (lo + 1) hi.
Proof.
  intros Hlt. unfold py_range.
  replace (Z.to_nat (hi - lo)) with (Datatypes.S (Z.to_nat (hi - (lo + 1)))) by lia.
  simpl. f_equal; [lia|].
  rewrite <-fmap_S_seq, <-list_fmap_compose.
  apply list_fmap_ext. intros _ k _. simpl. lia.
Qed.

Lemma py_range_nil lo hi : (hi ≤ lo)%Z → py_range lo hi = [].
Proof.
  intros Hle. unfold py_range.
  by replace (Z.to_nat (hi - lo)) with 0 by lia.
Qed.

Lemma py_range_snoc lo hi :
  (lo ≤ hi)%Z → py_range lo (hi + 1) = py_range lo hi ++ [hi].
Proof.
  intros Hle. unfold py_range.
  replace (Z.to_nat (hi + 1 - lo)) with (Z.to_nat (hi - lo) + 1) by lia.
  rewrite seq_app, fmap_app. simpl. do 2 f_equal. lia.
Qed.


Lemma for_returning_cons {St} (body : Z → M St (option value)) i range s :
  for_returning body (i :: range) s
  = (let* r := body i in
     match r with
     | Some v => ret v
     | None => for_returning body range
     end) s.
Proof. reflexivity. Qed.

Lemma attempt_body_Return {St Args} (self : with_retries)
    (f : Args * Z → M St value) args i s v s' :
  f (args, i) s = (Return v, s') →
  attempt_body self f args i s = (Return (Some v), s').
Proof.
  intros Hf. unfold attempt_body. apply try_Return.
  by rewrite (bind_Return _ _ _ _ _ Hf).
Qed.

Lemma attempt_body_reraise {St Args} (self : with_retries)
    (f : Args * Z → M St value) args i s e s' :
  f (args, i) s = (Raise e, s') → isinstance_Exception e = true →
  (i + 1 = attempts self)%Z →
  attempt_body self f args i s = (Raise e, s').
Proof.
  intros Hf He Hi. unfold attempt_body.
  rewrite (try_caught _ _ _ e s'); [|by rewrite (bind_Raise _ _ _ _ _ Hf)|done].
  by case_decide.
Qed.

Lemma attempt_body_swallow {St Args} (self : with_retries)
    (f : Args * Z → M St value) args i s e s' :
  f (args, i) s = (Raise e, s') → isinstance_Exception e = true →
  (i + 1 ≠ attempts self)%Z →
  attempt_body self f args i s = (Return None, s').
Proof.
  intros Hf He Hi. unfold attempt_body.
  rewrite (try_caught _ _ _ e s'); [|by rewrite (bind_Raise _ _ _ _ _ Hf)|done].
  by case_decide.
Qed.

Lemma attempt_body_passes {St Args} (self : with_retries)
    (f : Args * Z → M St value) args i s e s' :
  f (args, i) s = (Raise e, s') → isinstance_Exception e = false →
  attempt_body self f args i s = (Raise e, s').
Proof.
  intros Hf He. unfold attempt_body.
  apply try_passes; [|done]. by rewrite (bind_Raise _ _ _ _ _ Hf).
Qed.

Section with_retries_facts.
Context {St Args : Type}.
Implicit Types (func : Callable St (Args * Z)) (self : with_retries).

(** The wrapper made by [__call__] runs the same loop whatever the calling
    convention of [func]. *)
Lemma with_retries_call_loop self func args :
  c_call (with_retries_call self func) args
  = for_returning (attempt_body self (c_call func) args)
                  (py_range 1 (attempts self + 1)).
Proof. unfold with_retries_call. by destruct (iscoroutinefunction _). Qed.

Lemma logging_calls_step func args i s log o s' :
  c_call func (args, i) s = (o, s') →
  c_call (logging_calls func) (args, i) (s, log) = (o, (s', log ++ [i])).
Proof. simpl. by intros ->. Qed.

Arguments logging_calls : simpl never.

(** The loop over a callable that notes its calls does to the state what
    the loop over the callable itself does, and only adds to the log. *)
Lemma logging_calls_loop self func args range s log :
  ∃ calls : list Z,
    for_returning (attempt_body self (c_call (logging_calls func)) args)
                  range (s, log)
    = ((for_returning (attempt_body self (c_call func) args) range s).1,
       ((for_returning (attempt_body self (c_call func) args) range s).2,
        log ++ calls)).
Proof.
  revert s log. induction range as [|i range IH]; intros s log.
  - exists []. simpl. by rewrite app_nil_r.
  - destruct (c_call func (args, i) s) as [[v|e] s'] eqn:Hf.
    + exists [i]. rewrite !for_returning_cons.
      rewrite (bind_Return _ _ _ _ _
                 (attempt_body_Return self _ _ _ _ _ _
                    (logging_calls_step _ _ _ _ log _ _ Hf))).
      by rewrite (bind_Return _ _ _ _ _
                    (attempt_body_Return self _ _ _ _ _ _ Hf)).
    + destruct (isinstance_Exception e) eqn:He.
      * destruct (decide (i + 1 = attempts self)%Z) as [Hi|Hi].
        -- exists [i]. rewrite !for_returning_cons.
           rewrite (bind_Raise _ _ _ _ _
                      (attempt_body_reraise self _ _ _ _ _ _
                         (logging_calls_step _ _ _ _ log _ _ Hf) He Hi)).
           by rewrite (bind_Raise _ _ _ _ _
                         (attempt_body_reraise self _ _ _ _ _ _ Hf He Hi)).
        -- destruct (IH s' (log ++ [i])) as [calls Hcalls].
           exists (i :: calls). rewrite !for_returning_cons.
           rewrite (bind_Return _ _ _ _ _
                      (attempt_body_swallow self _ _ _ _ _ _
                         (logging_calls_step _ _ _ _ log _ _ Hf) He Hi)).
           rewrite (bind_Return _ _ _ _ _
                      (attempt_body_swallow self _ _ _ _ _ _ Hf He Hi)).
           cbv beta iota. rewrite Hcalls. by rewrite <-app_assoc.
      * exists [i]. rewrite !for_returning_cons.
        rewrite (bind_Raise _ _ _ _ _
                   (attempt_body_passes self _ _ _ _ _ _
                      (logging_calls_step _ _ _ _ log _ _ Hf) He)).
        by rewrite (bind_Raise _ _ _ _ _
                      (attempt_body_passes self _ _ _ _ _ _ Hf He)).
Qed.

(** From attempt [lo] on, with [k] attempts to go before the one at which
    [i + 1 == attempts]: the loop calls [func] at [lo], ..., [lo + k] and
    re-raises what the last of these calls raised. *)
Lemma failing_loop self func args (k : nat) (lo : Z) s log :
  always_raises func →
  (lo + Z.of_nat k + 1 = attempts self)%Z →
  ∃ e s0 s',
    c_call func (args, (lo + Z.of_nat k)%Z) s0 = (Raise e, s')
    ∧ isinstance_Exception e = true
    ∧ for_returning (attempt_body self (c_call (logging_calls func)) args)
                    (py_range lo (attempts self + 1)) (s, log)
      = (Raise e, (s', log ++ py_range lo (attempts self))).
Proof.
  intros Hfail. revert lo s log.
  induction k as [|k IH]; intros lo s log Hlast.
  - destruct (Hfail (args, lo) s) as (e & s' & Hf & He).
    exists e, s, s'. rewrite Z.add_0_r. split; [done|]. split; [done|].
    rewrite py_range_cons by lia. rewrite for_returning_cons.
    rewrite (bind_Raise _ _ _ _ _
               (attempt_body_reraise self _ _ _ _ _ _
                  (logging_calls_step _ _ _ _ log _ _ Hf) He ltac:(lia))).
    rewrite (py_range_cons lo) by lia.
    by rewrite (py_range_nil (lo + 1)) by lia.
  - destruct (Hfail (args, lo) s) as (e1 & s1 & Hf & He).
    destruct (IH (lo + 1)%Z s1 (log ++ [lo]) ltac:(lia))
      as (e & s0 & s' & Hlastcall & Hexc & Hloop).
    exists e, s0, s'.
    replace (lo + Z.of_nat (Datatypes.S k))%Z
      with (lo + 1 + Z.of_nat k)%Z by lia.
    split; [done|]. split; [done|].
    rewrite py_range_cons by lia. rewrite for_returning_cons.
    rewrite (bind_Return _ _ _ _ _
               (attempt_body_swallow self _ _ _ _ _ _
                  (logging_calls_step _ _ _ _ log _ _ Hf) He ltac:(lia))).
    cbv beta iota. rewrite Hloop. rewrite (py_range_cons lo (attempts self)) by lia.
    by rewrite <-app_assoc.
Qed.
End with_retries_facts.

Lemma loop_of_logging_calls {St Args} (self : with_retries)
    (func : Callable St (Args * Z)) args range s log o s' calls :
  for_returning (attempt_body self (c_call (logging_calls func)) args)
                range (s, log) = (o, (s', calls)) →
  for_returning (attempt_body self (c_call func) args) range s = (o, s').
Proof.
  intros Hlogged.
  destruct (logging_calls_loop self func args range s log) as [calls' Heq].
  rewrite Hlogged in Heq.
  destruct (for_returning (attempt_body self (c_call func) args) range s).
  simpl in Heq. congruence.
Qed.





(** ** What one wrapped invocation does to the store *)

Lemma _func_wrapper_inv func d kwargs h l h' :
  _func_wrapper func d kwargs h = (Return l, h') →
  (∃ v h1, func d kwargs h = (Return v, h1) ∧ isinstance_Result v = false
           ∧ l = length h1 ∧ h' = h1 ++ [Result_of_data v d])
  ∨ (∃ h1, func d kwargs h = (Return (VResult l), h1)
           ∧ h' = alter (set_ntd d) l h1)
  ∨ (∃ e h1, func d kwargs h = (Raise e, h1) ∧ isinstance_Exception e = true
             ∧ l = length h1 ∧ h' = h1 ++ [Result_of_exception d e]).
Proof.
  destruct (func d kwargs h) as [[v|e] h1] eqn:Hf.
  - destruct (isinstance_Result v) eqn:Hv.
    + destruct v; try done.
      rewrite (_func_wrapper_Result _ _ _ _ _ _ Hf). intros [= <- <-].
      right; left. eauto.
    + rewrite (_func_wrapper_plain _ _ _ _ _ _ Hf Hv). intros [= <- <-].
      left. eauto 10.
  - destruct (isinstance_Exception e) eqn:He.
    + rewrite (_func_wrapper_caught _ _ _ _ _ _ Hf He). intros [= <- <-].
      right; right. eauto 10.
    + by rewrite (_func_wrapper_passes _ _ _ _ _ _ Hf He).
Qed.

(** The object a wrapper hands back carries the context of the
    invocation. *)
Lemma _func_wrapper_attributes func d kwargs h l h' :
  returns_live func →
  _func_wrapper func d kwargs h = (Return l, h') →
  ∃ r, h' !! l = Some r ∧ ntd r = d.
Proof.
  intros Hlive Hw.
  destruct (_func_wrapper_inv _ _ _ _ _ _ Hw)
    as [(v & h1 & Hf & Hv & -> & ->)|[(h1 & Hf & ->)|(e & h1 & Hf & He & -> & ->)]].
  - exists (Result_of_data v d). by rewrite lookup_snoc_new.
  - destruct (Hlive _ _ _ _ _ Hf) as [r Hr].
    exists (set_ntd d r). by rewrite list_lookup_alter_eq, Hr.
  - exists (Result_of_exception d e). by rewrite lookup_snoc_new.
Qed.

Lemma _func_wrapper_framed func d kwargs :
  keeps_results func → returns_live func →
  framed (_func_wrapper func d kwargs).
Proof.
  intros Hkeep Hlive h l h' Hw. split.
  - destruct (_func_wrapper_attributes _ _ _ _ _ _ Hlive Hw) as (r & -> & _).
    eauto.
  - intros l' r Hne Hl'.
    destruct (_func_wrapper_inv _ _ _ _ _ _ Hw)
      as [(v & h1 & Hf & Hv & -> & ->)|[(h1 & Hf & ->)|(e & h1 & Hf & He & -> & ->)]].
    + apply lookup_app_l_Some. eapply Hkeep; eauto.
    + rewrite list_lookup_alter_ne by done. eapply Hkeep; eauto.
    + apply lookup_app_l_Some. eapply Hkeep; eauto.
Qed.


(** ** The pool *)

Lemma pool_exec_cons jobs i order done_ h :
  pool_exec jobs (i :: order) done_ h
  = match done_ !! i, jobs !! i with
    | None, Some job =>
        (let* r := job in pool_exec jobs order (<[i := r]> done_)) h
    | _, _ => pool_exec jobs order done_ h
    end.
Proof. simpl. by destruct (done_ !! i), (jobs !! i). Qed.

(** What has been recorded stays recorded. *)
Lemma pool_exec_mono jobs order done_ h done' h' :
  pool_exec jobs order done_ h = (Return done', h') → done_ ⊆ done'.
Proof.
  revert done_ h. induction order as [|i order IH]; intros done_ h.
  - by intros [= <- <-].
  - rewrite pool_exec_cons.
    destruct (done_ !! i) as [l|] eqn:Hi; [by apply IH|].
    destruct (jobs !! i) as [job|] eqn:Hjob; [|by apply IH].
    unfold bind. destruct (job h) as [[l|e] h1] eqn:Hrun; [|done].
    intros Hrest. apply IH in Hrest.
    etrans; [|exact Hrest]. by apply insert_subseteq.
Qed.

(** Only submitted jobs are recorded. *)
Lemma pool_exec_dom jobs order done_ h done' h' i :
  pool_exec jobs order done_ h = (Return done', h') →
  is_Some (done' !! i) → is_Some (done_ !! i) ∨ i < length jobs.
Proof.
  revert done_ h. induction order as [|k order IH]; intros done_ h.
  - intros [= <- <-]. auto.
  - rewrite pool_exec_cons.
    destruct (done_ !! k) as [l|] eqn:Hk; [by apply IH|].
    destruct (jobs !! k) as [job|] eqn:Hjob; [|by apply IH].
    unfold bind. destruct (job h) as [[l|e] h1] eqn:Hrun; [|done].
    intros Hrest Hi. destruct (IH _ _ Hrest Hi) as [Hin|Hlt]; [|by right].
    destruct (decide (k = i)) as [->|Hne].
    + right. by eapply lookup_lt_Some.
    + left. by rewrite lookup_insert_ne in Hin.
Qed.

(** Every submitted job that the order mentions is recorded. *)
Lemma pool_exec_covers jobs order done_ h done' h' i :
  pool_exec jobs order done_ h = (Return done', h') →
  i ∈ order → i < length jobs → is_Some (done' !! i).
Proof.
  revert done_ h. induction order as [|k order IH]; intros done_ h.
  - intros _ Hin. by apply elem_of_nil in Hin.
  - intros Hexec Hin Hlt.
    apply elem_of_cons in Hin as [->|Hin].
    + rewrite pool_exec_cons in Hexec.
      destruct (done_ !! k) as [l|] eqn:Hk.
      { apply pool_exec_mono in Hexec.
        exists l. by eapply lookup_weaken. }
      destruct (lookup_lt_is_Some_2 jobs k Hlt) as [job Hjob].
      rewrite Hjob in Hexec. unfold bind in Hexec.
      destruct (job h) as [[l|e] h1] eqn:Hrun; [|done].
      apply pool_exec_mono in Hexec.
      exists l. eapply lookup_weaken; [|exact Hexec].
      by rewrite lookup_insert_eq.
    + rewrite pool_exec_cons in Hexec.
      destruct (done_ !! k) as [l|] eqn:Hk; [by eapply IH|].
      destruct (jobs !! k) as [job|] eqn:Hjob; [|by eapply IH].
      unfold bind in Hexec.
      destruct (job h) as [[l|e] h1] eqn:Hrun; [|done].
      by eapply IH.
Qed.

(** When no two jobs end up with the same object, each object is, at the
    end, as its job left it. *)
Lemma pool_exec_attributed jobs order done_ h done' h' :
  Forall framed jobs →
  pool_exec jobs order done_ h = (Return done', h') →
  (∀ i j l, done' !! i = Some l → done' !! j = Some l → i = j) →
  attributed jobs done_ h → attributed jobs done' h'.
Proof.
  intros Hframed. revert done_ h.
  induction order as [|k order IH]; intros done_ h.
  - by intros [= <- <-].
  - rewrite pool_exec_cons.
    destruct (done_ !! k) as [l|] eqn:Hk; [by apply IH|].
    destruct (jobs !! k) as [job|] eqn:Hjob; [|by apply IH].
    unfold bind. destruct (job h) as [[l|e] h1] eqn:Hrun; [|done].
    intros Hrest Hinj Hattr.
    apply (IH _ _ Hrest Hinj).
    pose proof (pool_exec_mono _ _ _ _ _ _ Hrest) as Hsub.
    assert (Hjobframed : framed job).
    { eapply Forall_forall; [exact Hframed|].
      by eapply list_elem_of_lookup_2. }
    destruct (Hjobframed _ _ _ Hrun) as [[r Hr] Hothers].
    intros i li Hi.
    destruct (decide (k = i)) as [->|Hne].
    + rewrite lookup_insert_eq in Hi. injection Hi as <-.
      exists job, h, h1, r. done.
    + rewrite lookup_insert_ne in Hi by done.
      destruct (Hattr _ _ Hi) as (jobi & hi & hi' & ri & ? & ? & ? & Hli).
      exists jobi, hi, hi', ri. repeat split; try done.
      apply Hothers; [|done].
      intros ->. apply Hne.
      apply (Hinj k i l).
      * eapply lookup_weaken; [|exact Hsub]. by rewrite lookup_insert_eq.
      * eapply lookup_weaken; [|exact Hsub]. by rewrite lookup_insert_ne.
Qed.


Lemma omap_total {A B} (f : A → option B) (l : list A) :
  (∀ x, x ∈ l → is_Some (f x)) →
  Forall2 (λ x y, f x = Some y) l (omap f l).
Proof.
  induction l as [|x l IH]; intros Hall; simpl; [constructor|].
  destruct (Hall x) as [y Hy]; [by left|].
  rewrite Hy. constructor; [done|].
  apply IH. intros x' Hx'. apply Hall. by right.
Qed.

(** The list [run_jobs] hands back has the result of job [i] at place
    [i]. *)
Lemma run_jobs_inv jobs order h rs h' :
  run_jobs jobs order h = (Return rs, h') →
  ∃ done',
    pool_exec jobs (order ++ seq 0 (length jobs)) ∅ h = (Return done', h')
    ∧ length rs = length jobs
    ∧ (∀ i, i < length jobs → is_Some (rs !! i) ∧ rs !! i = done' !! i)
    ∧ (∀ i, is_Some (done' !! i) → i < length jobs).
Proof.
  unfold run_jobs, bind.
  destruct (pool_exec jobs _ ∅ h) as [[done'|e] h1] eqn:Hexec; [|done].
  intros [= <- <-]. exists done'. split; [done|].
  assert (Hall : ∀ i, i ∈ seq 0 (length jobs) → is_Some (done' !! i)).
  { intros i Hi. eapply pool_exec_covers; [exact Hexec| |].
    - apply elem_of_app. by right.
    - apply elem_of_seq in Hi. lia. }
  pose proof (omap_total (λ i, done' !! i) _ Hall) as Hrs.
  split; [|split].
  - by rewrite <-(Forall2_length _ _ _ Hrs), length_seq.
  - intros i Hi.
    destruct (Forall2_lookup_l _ _ _ i i Hrs) as (l & Hl & Hdone).
    { by apply lookup_seq_lt. }
    simpl in Hdone. rewrite Hl, Hdone. eauto.
  - intros i Hi.
    destruct (pool_exec_dom _ _ _ _ _ _ i Hexec Hi) as [[? Hempty]|?];
      [|done].
    by rewrite lookup_empty in Hempty.
Qed.

Lemma run_jobs_attributed jobs order h rs h' :
  Forall framed jobs →
  run_jobs jobs order h = (Return rs, h') →
  NoDup rs →
  length rs = length jobs
  ∧ ∀ i l, rs !! i = Some l →
      ∃ job hi hi' r,
        jobs !! i = Some job ∧ job hi = (Return l, hi')
        ∧ hi' !! l = Some r ∧ h' !! l = Some r.
Proof.
  intros Hframed Hrun Hnodup.
  destruct (run_jobs_inv _ _ _ _ _ Hrun) as (done' & Hexec & Hlen & Hrs & Hdom).
  split; [done|]. intros i l Hi.
  assert (Hlt : i < length jobs).
  { rewrite <-Hlen. by eapply lookup_lt_Some. }
  apply (pool_exec_attributed jobs _ ∅ h done' h' Hframed Hexec).
  - intros i1 i2 l' H1 H2.
    eapply NoDup_lookup; [exact Hnodup| |].
    + destruct (Hrs i1) as [_ ->]; [apply Hdom; eauto|done].
    + destruct (Hrs i2) as [_ ->]; [apply Hdom; eauto|done].
  - intros k lk Hk. by rewrite lookup_empty in Hk.
  - destruct (Hrs i Hlt) as [_ <-]. done.
Qed.


(** ** Blocking dispatch *)

(** Both modes submit the same jobs. *)
Lemma _run_async_eq self kwargs order :
  _run_async self kwargs order = _run_sync self kwargs order.
Proof. reflexivity. Qed.

Lemma run_unfold self kwargs order h :
  run self kwargs order h
  = match _run_sync self kwargs order h with
    | (Return rs, h') =>
        (Return (foldl (agg_store h')
                   (mkAggregatedResults (runner_name self) ∅) rs), h')
    | (Raise e, h') => (Raise e, h')
    end.
Proof. unfold run, bind. by destruct (iscoroutinefunction _). Qed.

(** The entries made from results that carry the contexts of hosts with
    pairwise different names. *)
Lemma foldl_agg_store h (Hs : list Host) (rs : list loc) agg :
  Forall2 (λ H l, ∃ r, h !! l = Some r ∧ host (ntd r) = H) Hs rs →
  NoDup (host_name <$> Hs) →
  (∀ i H l, Hs !! i = Some H → rs !! i = Some l →
     entries (foldl (agg_store h) agg rs) !! host_name H = Some l)
  ∧ (∀ k, k ∉ host_name <$> Hs →
       entries (foldl (agg_store h) agg rs) !! k = entries agg !! k).
Proof.
  intros Hall. revert agg.
  induction Hall as [|H l Hs rs (r & Hr & Hhost) Hall IH]; intros agg Hnodup.
  - split; [by intros i H l Hi|done].
  - rewrite fmap_cons in Hnodup. apply NoDup_cons in Hnodup as [Hnotin Hnodup].
    simpl foldl.
    destruct (IH (agg_store h agg l) Hnodup) as [IHin IHout].
    assert (Hstore : entries (agg_store h agg l)
                     = <[host_name H := l]> (entries agg)).
    { unfold agg_store. by rewrite Hr, Hhost. }
    split.
    + intros [|i] H' l' Hi Hl; simpl in Hi, Hl.
      * injection Hi as <-. injection Hl as <-.
        rewrite (IHout _ Hnotin), Hstore. apply lookup_insert_eq.
      * by eapply IHin.
    + intros k Hk. rewrite fmap_cons in Hk.
      apply not_elem_of_cons in Hk as [Hne Hk].
      rewrite (IHout _ Hk), Hstore. by apply lookup_insert_ne.
Qed.

(** What [run] hands back when the wrappers have handed back pairwise
    different objects. *)
Lemma run_distinct_results self kwargs order h rs h' :
  keeps_results (call (task self)) →
  returns_live (call (task self)) →
  NoDup (host_name <$> hosts self) →
  _run_sync self kwargs order h = (Return rs, h') →
  NoDup rs →
  ∃ agg,
    run self kwargs order h = (Return agg, h')
    ∧ length rs = length (hosts self)
    ∧ (∀ i H, hosts self !! i = Some H →
         ∃ l r hi hi',
           rs !! i = Some l
           ∧ entries agg !! host_name H = Some l
           ∧ h' !! l = Some r
           ∧ ntd r = ntd_for self H
           ∧ _func_wrapper (call (task self)) (ntd_for self H) kwargs hi
             = (Return l, hi')
           ∧ hi' !! l = Some r)
    ∧ (∀ k, k ∉ host_name <$> hosts self → entries agg !! k = None)
    ∧ dom (entries agg) = list_to_set (host_name <$> hosts self)
    ∧ size (entries agg) = length (hosts self).
Proof.
  intros Hkeep Hlive Hnames Hrun Hnodup.
  set (jobs := map (λ H, _func_wrapper (call (task self)) (ntd_for self H)
                                       kwargs) (hosts self)).
  assert (Hframed : Forall framed jobs).
  { apply Forall_fmap, Forall_forall. intros H _.
    by apply _func_wrapper_framed. }
  destruct (run_jobs_attributed jobs order h rs h' Hframed Hrun Hnodup)
    as [Hlen Hattr].
  unfold jobs in Hlen. rewrite length_map in Hlen.
  assert (Hper : ∀ i H, hosts self !! i = Some H →
            ∃ l r hi hi',
              rs !! i = Some l ∧ h' !! l = Some r ∧ ntd r = ntd_for self H
              ∧ _func_wrapper (call (task self)) (ntd_for self H) kwargs hi
                = (Return l, hi')
              ∧ hi' !! l = Some r).
  { intros i H Hi.
    destruct (lookup_lt_is_Some_2 rs i) as [l Hl].
    { rewrite Hlen. by eapply lookup_lt_Some. }
    destruct (Hattr i l Hl) as (job & hi & hi' & r & Hjob & Hw & Hr & Hr').
    unfold jobs in Hjob.
    change (map ?f ?l) with (f <$> l) in Hjob.
    rewrite list_lookup_fmap, Hi in Hjob. injection Hjob as <-.
    destruct (_func_wrapper_attributes _ _ _ _ _ _ Hlive Hw) as (r0 & Hr0 & Hd).
    rewrite Hr in Hr0. injection Hr0 as <-.
    exists l, r, hi, hi'. done. }
  assert (Hall : Forall2 (λ H l, ∃ r, h' !! l = Some r ∧ host (ntd r) = H)
                         (hosts self) rs).
  { apply Forall2_same_length_lookup_2; [done|].
    intros i H l Hi Hl.
    destruct (Hper i H Hi) as (l' & r & _ & _ & Hl' & Hr & Hd & _).
    rewrite Hl in Hl'. injection Hl' as <-.
    exists r. by rewrite Hd. }
  destruct (foldl_agg_store h' _ _ (mkAggregatedResults (runner_name self) ∅)
              Hall Hnames) as [Hin Hout].
  eexists. rewrite run_unfold, Hrun. split; [done|]. split; [done|].
  assert (Hnone : ∀ k, k ∉ host_name <$> hosts self →
            entries (foldl (agg_store h')
                       (mkAggregatedResults (runner_name self) ∅) rs) !! k
            = None).
  { intros k Hk. by rewrite (Hout k Hk). }
  assert (Hdom : dom (entries (foldl (agg_store h')
                         (mkAggregatedResults (runner_name self) ∅) rs))
                 = list_to_set (host_name <$> hosts self)).
  { apply set_eq. intros k. rewrite elem_of_dom, elem_of_list_to_set.
    split.
    - intros [l Hl]. destruct (decide (k ∈ host_name <$> hosts self)); [done|].
      rewrite Hnone in Hl; done.
    - intros Hk. apply list_elem_of_fmap in Hk as (H & -> & HH).
      apply list_elem_of_lookup in HH as [i Hi].
      destruct (Hper i H Hi) as (l & r & _ & _ & Hl & _).
      exists l. by eapply Hin. }
  split; [|split; [done|split; [done|]]].
  - intros i H Hi.
    destruct (Hper i H Hi) as (l & r & hi & hi' & Hl & Hr & Hd & Hw & Hr').
    exists l, r, hi, hi'. repeat split; try done. by eapply Hin.
  - rewrite <-size_dom, Hdom, size_list_to_set by done.
    by rewrite length_fmap.
Qed.

(** Hosts with pairwise different names in the inventory have pairwise
    different names in the dispatched subset. *)
Lemma hosts_init_names t n nm sev on_good on_failed :
  NoDup (host_name <$> (inventory_hosts n).*2) →
  NoDup (host_name <$> hosts (TaskRunner_init t n nm sev on_good on_failed)).
Proof.
  intros Hnodup. rewrite hosts_init.
  assert (Hinj : ∀ x y : string * Host,
            x ∈ inventory_hosts n → y ∈ inventory_hosts n →
            host_name x.2 = host_name y.2 → x = y).
  { intros x y Hx Hy Heq.
    apply list_elem_of_lookup in Hx as [i Hi].
    apply list_elem_of_lookup in Hy as [j Hj].
    assert (i = j) as ->; [|congruence].
    eapply NoDup_lookup; [exact Hnodup| |].
    - by rewrite !list_lookup_fmap, Hi.
    - by rewrite !list_lookup_fmap, Hj, Heq. }
  assert (Hitems : NoDup (inventory_hosts n)).
  { by apply NoDup_fmap_1 in Hnodup; apply NoDup_fmap_1 in Hnodup. }
  assert (Hpart : ∀ (P : string * Host → Prop) `{∀ x, Decision (P x)},
            NoDup (host_name <$> (filter P (inventory_hosts n)).*2)).
  { intros P ?. rewrite <-list_fmap_compose.
    apply NoDup_fmap_2_strong; [|by apply NoDup_filter].
    intros x y [_ Hx]%list_elem_of_filter [_ Hy]%list_elem_of_filter.
    by apply Hinj. }
  destruct on_good, on_failed; rewrite ?app_nil_r; simpl;
    try apply Hpart; try constructor.
  rewrite fmap_app. apply NoDup_app. split; [apply Hpart|].
  split; [|apply Hpart].
  intros k Hgood Hfailed.
  rewrite <-list_fmap_compose in Hgood, Hfailed.
  apply list_elem_of_fmap in Hgood as (x & -> & [Hx Hxin]%list_elem_of_filter).
  apply list_elem_of_fmap in Hfailed as (y & Hxy & [Hy Hyin]%list_elem_of_filter).
  simpl in Hxy. apply (Hinj x y Hxin Hyin) in Hxy as ->. done.
Qed.

(** C4, as the code has it.  Take an inventory whose hosts have pairwise
    different names, a task that leaves the [Result] objects it finds as
    they are (and whose references, as always in Python, refer to objects
    of the store), and a dispatch in which the wrappers hand back pairwise
    different objects [rs]: no [Result] object is handed back for two
    hosts.  Then [run] returns an aggregate with exactly one entry for each
    dispatched host, under the name of that host and referring to a [Result]
    with the context of that host, and with no entry for an inventory host
    that is not dispatched; this, however many invocations raised and in
    whatever order they ran. *)
Theorem one_entry_per_dispatched_host (self : TaskRunner) (t : Task)
    (n : Nornir) (nm : option string) (sev : Z) (on_good on_failed : bool)
    (kwargs : Kwargs) (order : list nat) (h h' : heap) (rs : list loc) :
  self = TaskRunner_init t n nm sev on_good on_failed →
  NoDup (host_name <$> (inventory_hosts n).*2) →
  keeps_results (call t) →
  returns_live (call t) →
  (if iscoroutinefunction (kind t)
   then _run_async self kwargs order
   else _run_sync self kwargs order) h = (Return rs, h') →
  NoDup rs →
  ∃ agg : AggregatedResults,
    run self kwargs order h = (Return agg, h')
    ∧ size (entries agg) = length (hosts self)
    ∧ (∀ k, is_Some (entries agg !! k)
            ↔ ∃ H, H ∈ hosts self ∧ host_name H = k)
    ∧ (∀ H, H ∈ hosts self →
         ∃ l r, entries agg !! host_name H = Some l
                ∧ h' !! l = Some r ∧ ntd r = ntd_for self H)
    ∧ (∀ k H, (k, H) ∈ inventory_hosts n → H ∉ hosts self →
         entries agg !! host_name H = None).
Proof.
  intros Hself Hinv Hkeep Hlive Hrun Hnodup.
  assert (Hnames : NoDup (host_name <$> hosts self)).
  { rewrite Hself. by apply hosts_init_names. }
  assert (Hrun' : _run_sync self kwargs order h = (Return rs, h')).
  { by destruct (iscoroutinefunction (kind t)). }
  assert (Htask : call (task self) = call t) by by rewrite Hself.
  destruct (run_distinct_results self kwargs order h rs h')
    as (agg & Hagg & Hlen & Hper & Hnone & Hdom & Hsize);
    rewrite ?Htask; try done.
  exists agg. split; [done|]. split; [done|].
  assert (Hkeys : ∀ k, is_Some (entries agg !! k)
                       ↔ ∃ H, H ∈ hosts self ∧ host_name H = k).
  { intros k. rewrite <-elem_of_dom, Hdom, elem_of_list_to_set.
    rewrite list_elem_of_fmap. split.
    - intros (H & -> & HH). eauto.
    - intros (H & HH & <-). eauto. }
  split; [done|]. split.
  - intros H [i Hi]%list_elem_of_lookup.
    destruct (Hper i H Hi) as (l & r & _ & _ & _ & Hl & Hr & Hd & _).
    eauto.
  - intros k H Hin Hnot.
    destruct (entries agg !! host_name H) as [l|] eqn:Hl; [|done].
    destruct (proj1 (Hkeys (host_name H))) as (H' & HH' & Heq); [by eauto|].
    assert (H' ∈ hosts (TaskRunner_init t n nm sev on_good on_failed)) as Hsel
      by by rewrite <-Hself.
    apply elem_of_hosts_init in Hsel as (k' & Hin' & _).
    apply list_elem_of_lookup in Hin as [i Hi].
    apply list_elem_of_lookup in Hin' as [j Hj].
    assert (j = i) as ->.
    { apply (NoDup_lookup _ j i (host_name H) Hinv).
      - rewrite !list_lookup_fmap, Hj. simpl. by rewrite Heq.
      - by rewrite !list_lookup_fmap, Hi. }
    rewrite Hi in Hj. injection Hj as _ <-. done.
Qed.

Lemma task_bad_on_a_keeps_results : keeps_results (call task_bad_on_a).
Proof.
  intros d kwargs h o h' l r. simpl. case_decide; by intros [= <- <-].
Qed.

Lemma task_bad_on_a_returns_live : returns_live (call task_bad_on_a).
Proof. intros d kwargs h l h'. simpl. by case_decide. Qed.


Lemma one_entry_per_dispatched_host_witness :
  ∃ agg : AggregatedResults,
    run (TaskRunner_init task_bad_on_a fleet None logging_INFO true false)
        [] [1; 0] []
    = (Return agg,
       [Result_of_data (VInt 7)
          (ntd_for (TaskRunner_init task_bad_on_a fleet None logging_INFO
                      true false) host_b);
        Result_of_exception
          (ntd_for (TaskRunner_init task_bad_on_a fleet None logging_INFO
                      true false) host_a)
          (PyExc ValueError "boom")])
    ∧ size (entries agg)
      = length (hosts (TaskRunner_init task_bad_on_a fleet None logging_INFO
                         true false))
    ∧ (∀ k, is_Some (entries agg !! k)
            ↔ ∃ H, H ∈ hosts (TaskRunner_init task_bad_on_a fleet None
                                logging_INFO true false)
                   ∧ host_name H = k)
    ∧ (∀ H, H ∈ hosts (TaskRunner_init task_bad_on_a fleet None logging_INFO
                         true false) →
         ∃ l r, entries agg !! host_name H = Some l
                ∧ [Result_of_data (VInt 7)
                     (ntd_for (TaskRunner_init task_bad_on_a fleet None
                                 logging_INFO true false) host_b);
                   Result_of_exception
                     (ntd_for (TaskRunner_init task_bad_on_a fleet None
                                 logging_INFO true false) host_a)
                     (PyExc ValueError "boom")] !! l = Some r
                ∧ ntd r
                  = ntd_for (TaskRunner_init task_bad_on_a fleet None
                               logging_INFO true false) H)
    ∧ (∀ k H, (k, H) ∈ inventory_hosts fleet →
         H ∉ hosts (TaskRunner_init task_bad_on_a fleet None logging_INFO
                      true false) →
         entries agg !! host_name H = None).
Proof.
  apply (one_entry_per_dispatched_host
           (TaskRunner_init task_bad_on_a fleet None logging_INFO true false)
           task_bad_on_a fleet None logging_INFO true false [] [1; 0] []
           _ [1; 0]).
  - reflexivity.
  - apply (bool_decide_unpack _). vm_compute. exact I.
  - exact task_bad_on_a_keeps_results.
  - exact task_bad_on_a_returns_live.
  - reflexivity.
  - apply (bool_decide_unpack _). vm_compute. exact I.
Defined.

(** C4, as stated, fails.  The task [cached] hands back one and the same
    [Result] object for every host.  Two hosts are dispatched ("a" and
    "b", whose names differ); each wrapper writes its context into that one
    object, and the aggregate ends up with a single entry, under "b":
    none for "a". *)
Lemma shared_Result_leaves_one_entry :
  NoDup (host_name <$> (inventory_hosts fleet).*2)
  ∧ hosts (TaskRunner_init task_cached fleet None logging_INFO true false)
    = [host_a; host_b]
  ∧ ∃ (agg : AggregatedResults) (h' : heap),
      run (TaskRunner_init task_cached fleet None logging_INFO true false)
          [] [] store_with_cached
      = (Return agg, h')
      ∧ size (entries agg) = 1
      ∧ entries agg !! "a" = None
      ∧ entries agg !! "b" = Some 0
      ∧ run (TaskRunner_init task_cached fleet None logging_INFO true false)
            [] [1; 0] store_with_cached
        = (Return (mkAggregatedResults "function" {["a" := 0]}),
           [Result_of_data (VStr "ok")
              (ntd_for (TaskRunner_init task_cached fleet None logging_INFO
                          true false) host_a)]).
Proof.
  split; [apply (bool_decide_unpack _); vm_compute; exact I|].
  split; [reflexivity|].
  eexists _, _. split; [vm_compute; reflexivity|].
  repeat split; vm_compute; reflexivity.
Qed.

(** ** Failures during blocking dispatch *)



(** What the dispatch of [bad_on_a] gives: "a" holds the [ValueError], "b"
    holds 7. *)
Lemma run_bad_on_a :
  run runner_bad_on_a [] [] []
  = (Return (mkAggregatedResults "function" {["a" := 0; "b" := 1]}),
     [Result_of_exception (ntd_for runner_bad_on_a host_a)
        (PyExc ValueError "boom");
      Result_of_data (VInt 7) (ntd_for runner_bad_on_a host_b)]).
Proof. vm_compute. reflexivity. Qed.


(** ** Handles *)

(** What the cooperative entry point does: the handle of a host for which
    the task raises [e] raises [FutureException(e, ntd)] when resolved. *)
Lemma async_handle_raises_FutureException self kwargs i H h e h1 :
  hosts self !! i = Some H →
  call (task self) (ntd_for self H) kwargs h = (Raise e, h1) →
  isinstance_Exception e = true →
  ∃ handle,
    async_with_futures self kwargs !! i = Some handle
    ∧ handle h = (Raise (FutureException e (ntd_for self H)), h1).
Proof.
  intros Hi Hcall He. eexists. split.
  - unfold async_with_futures. change (map ?f ?l) with (f <$> l).
    by rewrite list_lookup_fmap, Hi.
  - unfold _futures_wrapper. by rewrite (try_caught _ _ _ _ _ Hcall He).
Qed.

(** What the blocking entry point does: the handle of a host for which the
    task raises [e] returns, when resolved, a [Result] that holds [e]. *)
Lemma sync_handle_returns_a_Result self kwargs i H h e h1 :
  hosts self !! i = Some H →
  call (task self) (ntd_for self H) kwargs h = (Raise e, h1) →
  isinstance_Exception e = true →
  ∃ handle,
    sync_with_futures self kwargs !! i = Some handle
    ∧ handle h
      = (Return (length h1), h1 ++ [Result_of_exception (ntd_for self H) e]).
Proof.
  intros Hi Hcall He. eexists. split.
  - unfold sync_with_futures. change (map ?f ?l) with (f <$> l).
    by rewrite list_lookup_fmap, Hi.
  - by apply _func_wrapper_caught.
Qed.

(** C3, on the code.  The function [bad] raises [ValueError("boom")] for
    every host.  The handle that [sync_with_futures] gives for host "a"
    does not raise when it is resolved: it returns a new [Result] whose
    [exception] is that [ValueError].  The handle that [async_with_futures]
    gives for the coroutine [abad] raises [FutureException] with the
    [ValueError] and the context of "a". *)
Theorem sync_handle_turns_the_exception_into_a_Result :
  hosts runner_bad !! 0 = Some host_a
  ∧ call task_bad (ntd_for runner_bad host_a) [] []
    = (Raise (PyExc ValueError "boom"), [])
  ∧ (∃ handle,
       sync_with_futures runner_bad [] !! 0 = Some handle
       ∧ handle []
         = (Return 0,
            [Result_of_exception (ntd_for runner_bad host_a)
               (PyExc ValueError "boom")]))
  ∧ (∃ handle,
       async_with_futures runner_abad [] !! 0 = Some handle
       ∧ handle []
         = (Raise (FutureException (PyExc ValueError "boom")
                     (ntd_for runner_abad host_a)), [])).
Proof.
  split; [done|]. split; [done|]. split.
  - apply (sync_handle_returns_a_Result runner_bad [] 0 host_a [] _ []); done.
  - apply (async_handle_raises_FutureException runner_abad [] 0 host_a [] _ []);
      done.
Qed.

(** * Further properties of the code *)

(** ** [with_retries]: which calls are made *)

Lemma py_range_one lo : py_range lo (lo + 1) = [lo].
Proof. rewrite py_range_cons by lia. by rewrite py_range_nil by lia. Qed.

Lemma py_range_to_nat (n : Z) :
  py_range 1 (n + 1) = py_range 1 (1 + Z.of_nat (Z.to_nat n)).
Proof. unfold py_range. do 2 f_equal. lia. Qed.

(** The calls of the loop over [lo, ..., lo + k - 1]: the first [m] of them
    for some [m], and none but the last of these is followed by the attempt
    numbered [attempts]. *)
Lemma loop_calls_shape {St Args} (self : with_retries)
    (func : Callable St (Args * Z)) args (k : nat) (lo : Z) s log :
  ∃ m : nat,
    m ≤ k
    ∧ (for_returning (attempt_body self (c_call (logging_calls func)) args)
                     (py_range lo (lo + Z.of_nat k)) (s, log)).2.2
      = log ++ py_range lo (lo + Z.of_nat m)
    ∧ ∀ i, (lo ≤ i)%Z → (i < lo + Z.of_nat m - 1)%Z →
           (i + 1)%Z ≠ attempts self.
Proof.
  revert lo s log. induction k as [|k IH]; intros lo s log.
  - exists 0. split; [done|]. rewrite Z.add_0_r, py_range_nil by lia.
    simpl. rewrite app_nil_r. split; [done|]. intros; lia.
  - rewrite (py_range_cons lo) by lia. rewrite for_returning_cons.
    assert (Hone : ∀ (o : outcome value) (s1 : St),
              ∃ m : nat,
                m ≤ Datatypes.S k
                ∧ (o, (s1, log ++ [lo])).2.2
                  = log ++ py_range lo (lo + Z.of_nat m)
                ∧ ∀ i, (lo ≤ i)%Z → (i < lo + Z.of_nat m - 1)%Z →
                       (i + 1)%Z ≠ attempts self).
    { intros o s1. exists 1. split; [lia|].
      change (Z.of_nat 1) with 1%Z. rewrite py_range_one.
      split; [done|]. intros; lia. }
    destruct (c_call func (args, lo) s) as [[v|e] s1] eqn:Hf.
    + rewrite (bind_Return _ _ _ _ _
                 (attempt_body_Return self _ _ _ _ _ _
                    (logging_calls_step _ _ _ _ log _ _ Hf))).
      apply Hone.
    + destruct (isinstance_Exception e) eqn:He.
      * destruct (decide (lo + 1 = attempts self)%Z) as [Hi|Hi].
        -- rewrite (bind_Raise _ _ _ _ _
                      (attempt_body_reraise self _ _ _ _ _ _
                         (logging_calls_step _ _ _ _ log _ _ Hf) He Hi)).
           apply Hone.
        -- rewrite (bind_Return _ _ _ _ _
                      (attempt_body_swallow self _ _ _ _ _ _
                         (logging_calls_step _ _ _ _ log _ _ Hf) He Hi)).
           cbv beta iota.
           replace (lo + Z.of_nat (Datatypes.S k))%Z
             with (lo + 1 + Z.of_nat k)%Z by lia.
           destruct (IH (lo + 1)%Z s1 (log ++ [lo])) as (m & Hm & Hlog & Hnot).
           exists (Datatypes.S m). split; [lia|]. split.
           ++ rewrite Hlog, <-app_assoc. f_equal.
              rewrite (py_range_cons lo) by lia. simpl. do 2 f_equal. lia.
           ++ intros i Hlo Hhi. destruct (decide (i = lo)) as [->|Hne];
                [done|]. apply Hnot; lia.
      * rewrite (bind_Raise _ _ _ _ _
                   (attempt_body_passes self _ _ _ _ _ _
                      (logging_calls_step _ _ _ _ log _ _ Hf) He)).
        apply Hone.
Qed.

(** Running the wrapper over the call-noting double does to the state what
    running it over the callable does. *)
Lemma logged_wrapper_agrees {St Args} (self : with_retries)
    (func : Callable St (Args * Z)) args s :
  ((c_call (with_retries_call self (logging_calls func)) args (s, [])).1,
   (c_call (with_retries_call self (logging_calls func)) args (s, [])).2.1)
  = c_call (with_retries_call self func) args s.
Proof.
  rewrite !with_retries_call_loop.
  destruct (logging_calls_loop self func args
              (py_range 1 (attempts self + 1)) s []) as [calls ->].
  simpl. by destruct (for_returning _ _ s).
Qed.

(** X1.  Whatever the callable does, the calls the wrapper makes are those
    with [attempt = 1, 2, ..., m], in this order, for some [m] that is at
    most [attempts] (and 0 when [attempts] is not positive): no attempt is
    skipped, made twice, or numbered beyond [attempts]. *)
Theorem retry_calls_are_consecutive {St Args} (self : with_retries)
    (func : Callable St (Args * Z)) (args : Args) (s : St) :
  ∃ m : nat,
    (c_call (with_retries_call self (logging_calls func)) args (s, [])).2.2
    = py_range 1 (1 + Z.of_nat m)
    ∧ m ≤ Z.to_nat (attempts self).
Proof.
  rewrite with_retries_call_loop, py_range_to_nat.
  destruct (loop_calls_shape self func args (Z.to_nat (attempts self)) 1 s [])
    as (m & Hm & Hlog & _).
  exists m. by rewrite Hlog.
Qed.

(** X2.  With [attempts >= 2] the callable is never called with
    [attempt = attempts], whatever it does: the last attempt the decorator
    announces is never made. *)
Theorem last_attempt_is_never_made {St Args} (self : with_retries)
    (func : Callable St (Args * Z)) (args : Args) (s : St) :
  (2 ≤ attempts self)%Z →
  attempts self
  ∉ (c_call (with_retries_call self (logging_calls func)) args (s, [])).2.2.
Proof.
  intros H2. rewrite with_retries_call_loop, py_range_to_nat.
  destruct (loop_calls_shape self func args (Z.to_nat (attempts self)) 1 s [])
    as (m & Hm & -> & Hnot).
  simpl. unfold py_range. intros Hin.
  apply list_elem_of_fmap in Hin as (j & Hj & Hin).
  apply elem_of_seq in Hin.
  apply (Hnot (attempts self - 1)%Z); lia.
Qed.

Lemma last_attempt_is_never_made_witness :
  3%Z ∉ (c_call (with_retries_call (mk_with_retries 3)
                   (logging_calls second_time_lucky)) tt (tt, [])).2.2.
Proof.
  apply (last_attempt_is_never_made (mk_with_retries 3) second_time_lucky
           tt tt).
  simpl. lia.
Defined.

(** X3.  With [attempts <= 0] the wrapper does not call the callable at
    all: it returns [None] and leaves the state as it was. *)
Theorem no_attempts_no_call {St Args} (self : with_retries)
    (func : Callable St (Args * Z)) (args : Args) (s : St) :
  (attempts self ≤ 0)%Z →
  c_call (with_retries_call self func) args s = (Return VNone, s)
  ∧ c_call (with_retries_call self (logging_calls func)) args (s, [])
    = (Return VNone, (s, [])).
Proof.
  intros Hle. rewrite !with_retries_call_loop.
  by rewrite py_range_nil by lia.
Qed.

Lemma no_attempts_no_call_witness :
  c_call (with_retries_call (mk_with_retries 0) always_failing) tt tt
  = (Return VNone, tt)
  ∧ c_call (with_retries_call (mk_with_retries 0)
              (logging_calls always_failing)) tt (tt, [])
    = (Return VNone, (tt, [])).
Proof.
  apply (no_attempts_no_call (mk_with_retries 0) always_failing tt tt).
  simpl. lia.
Defined.

(** ** [with_retries]: how the loop ends *)

(** From attempt [lo] on, with [j] failing attempts to go before the attempt
    [k] that returns. *)
Lemma succeeding_loop {St Args} (self : with_retries)
    (func : Callable St (Args * Z)) args (j : nat) (lo k : Z) s log :
  (lo + Z.of_nat j = k)%Z →
  (∀ i s0, (lo ≤ i < k)%Z →
     ∃ e s1, c_call func (args, i) s0 = (Raise e, s1)
             ∧ isinstance_Exception e = true) →
  (∀ s0, ∃ v s1, c_call func (args, k) s0 = (Return v, s1)) →
  (∀ i, (lo ≤ i < k)%Z → (i + 1)%Z ≠ attempts self) →
  (k ≤ attempts self)%Z →
  ∃ v s0 s',
    c_call func (args, k) s0 = (Return v, s')
    ∧ for_returning (attempt_body self (c_call (logging_calls func)) args)
                    (py_range lo (attempts self + 1)) (s, log)
      = (Return v, (s', log ++ py_range lo (k + 1))).
Proof.
  revert lo s log. induction j as [|j IH]; intros lo s log Hk Hfail Hret Hne Hle.
  - assert (lo = k) as -> by lia.
    destruct (Hret s) as (v & s1 & Hf).
    exists v, s, s1. split; [done|].
    rewrite (py_range_cons k (attempts self + 1)) by lia.
    rewrite for_returning_cons.
    rewrite (bind_Return _ _ _ _ _
               (attempt_body_Return self _ _ _ _ _ _
                  (logging_calls_step _ _ _ _ log _ _ Hf))).
    by rewrite py_range_one.
  - destruct (Hfail lo s ltac:(lia)) as (e & s1 & Hf & He).
    destruct (IH (lo + 1)%Z s1 (log ++ [lo])) as (v & s0 & s' & Hlast & Hloop);
      try done; try lia.
    { intros i s0 Hi. apply Hfail. lia. }
    { intros i Hi. apply Hne. lia. }
    exists v, s0, s'. split; [done|].
    rewrite (py_range_cons lo (attempts self + 1)) by lia.
    rewrite for_returning_cons.
    rewrite (bind_Return _ _ _ _ _
               (attempt_body_swallow self _ _ _ _ _ _
                  (logging_calls_step _ _ _ _ log _ _ Hf) He
                  (Hne lo ltac:(lia)))).
    cbv beta iota. rewrite Hloop, <-app_assoc.
    by rewrite (py_range_cons lo (k + 1)) by lia.
Qed.

(** X4.  Let the callable raise (an instance of [Exception]) at the
    attempts before [k] and return at attempt [k], where [k < attempts] or
    [k = 1 <= attempts].  Then the wrapper calls it with
    [attempt = 1, ..., k] and returns what the call at attempt [k]
    returned: no later attempt is made. *)
Theorem retry_returns_the_first_success {St Args} (self : with_retries)
    (func : Callable St (Args * Z)) (args : Args) (k : Z) (s : St) :
  (1 ≤ k)%Z →
  (k ≤ attempts self)%Z →
  (k < attempts self ∨ k = 1)%Z →
  (∀ i s0, (1 ≤ i < k)%Z →
     ∃ e s1, c_call func (args, i) s0 = (Raise e, s1)
             ∧ isinstance_Exception e = true) →
  (∀ s0, ∃ v s1, c_call func (args, k) s0 = (Return v, s1)) →
  ∃ v s0 s',
    c_call func (args, k) s0 = (Return v, s')
    ∧ c_call (with_retries_call self func) args s = (Return v, s')
    ∧ c_call (with_retries_call self (logging_calls func)) args (s, [])
      = (Return v, (s', py_range 1 (k + 1))).
Proof.
  intros H1 Hle Hlt Hfail Hret.
  destruct (succeeding_loop self func args (Z.to_nat (k - 1)) 1 k s [])
    as (v & s0 & s' & Hlast & Hloop); try done; try lia.
  exists v, s0, s'. split; [done|].
  rewrite !with_retries_call_loop. split; [|done].
  by apply (loop_of_logging_calls _ _ _ _ _ _ _ _ _ Hloop).
Qed.

Lemma retry_returns_the_first_success_witness :
  ∃ v s0 s',
    c_call second_time_lucky (tt, 2%Z) s0 = (Return v, s')
    ∧ c_call (with_retries_call (mk_with_retries 3) second_time_lucky) tt tt
      = (Return v, s')
    ∧ c_call (with_retries_call (mk_with_retries 3)
                (logging_calls second_time_lucky)) tt (tt, [])
      = (Return v, (s', py_range 1 (2 + 1))).
Proof.
  apply (retry_returns_the_first_success (mk_with_retries 3)
           second_time_lucky tt 2 tt).
  - lia.
  - simpl. lia.
  - left. simpl. lia.
  - intros i s0 Hi. assert (i = 1%Z) as -> by lia.
    exists (PyExc OSError "busy"), s0. split; reflexivity.
  - intros s0. exists (VStr "ok"), s0. reflexivity.
Defined.

(** X5.  An exception that is not an instance of [Exception], raised at the
    first attempt, leaves the wrapper at once: one call, no retry, whatever
    [attempts >= 1] is. *)
Theorem retry_does_not_catch_BaseException {St Args} (self : with_retries)
    (func : Callable St (Args * Z)) (args : Args) (s s' : St)
    (e : BaseException) :
  (1 ≤ attempts self)%Z →
  c_call func (args, 1%Z) s = (Raise e, s') →
  isinstance_Exception e = false →
  c_call (with_retries_call self func) args s = (Raise e, s')
  ∧ c_call (with_retries_call self (logging_calls func)) args (s, [])
    = (Raise e, (s', [1%Z])).
Proof.
  intros H1 Hf He. rewrite !with_retries_call_loop.
  rewrite (py_range_cons 1) by lia. rewrite !for_returning_cons.
  rewrite (bind_Raise _ _ _ _ _
             (attempt_body_passes self _ _ _ _ _ _ Hf He)).
  by rewrite (bind_Raise _ _ _ _ _
                (attempt_body_passes self _ _ _ _ _ _
                   (logging_calls_step _ _ _ _ [] _ _ Hf) He)).
Qed.

Lemma retry_does_not_catch_BaseException_witness :
  c_call (with_retries_call (mk_with_retries 5) always_interrupted) tt tt
  = (Raise (PyExc KeyboardInterrupt EmptyString), tt)
  ∧ c_call (with_retries_call (mk_with_retries 5)
              (logging_calls always_interrupted)) tt (tt, [])
    = (Raise (PyExc KeyboardInterrupt EmptyString), (tt, [1%Z])).
Proof.
  apply (retry_does_not_catch_BaseException (mk_with_retries 5)
           always_interrupted tt tt tt
           (PyExc KeyboardInterrupt EmptyString)).
  - simpl. lia.
  - reflexivity.
  - reflexivity.
Defined.

(** The wrapper has the calling convention of the callable it wraps:
    a coroutine function stays one and a plain function stays one, so that
    the runner dispatches the decorated task in the mode of the task. *)
Lemma retry_keeps_the_calling_convention {St Args} (self : with_retries)
    (func : Callable St (Args * Z)) :
  iscoroutinefunction (c_kind (with_retries_call self func))
  = iscoroutinefunction (c_kind func).
Proof.
  unfold with_retries_call.
  by destruct (iscoroutinefunction (c_kind func)) eqn:Hk.
Qed.

(** ** A retried task under the runner *)

Lemma retried_call self func d kwargs :
  call (retried self func) d kwargs
  = for_returning (attempt_body self (c_call func) (d, kwargs))
                  (py_range 1 (attempts self + 1)).
Proof. unfold retried. simpl. apply with_retries_call_loop. Qed.

(** X6.  A task that raises at every attempt, decorated with
    [with_retries(1)] and run by the blocking wrapper: the [Result] for the
    host has no [exception] and [None] as [data].  The failure of the task
    leaves no trace in what the runner hands back. *)
Theorem retried_once_failure_leaves_no_trace
    (func : Callable heap ((NornirTaskData * Kwargs) * Z))
    (d : NornirTaskData) (kwargs : Kwargs) (h : heap) :
  always_raises func →
  ∃ (e : BaseException) (h1 : heap),
    c_call func ((d, kwargs), 1%Z) h = (Raise e, h1)
    ∧ _func_wrapper (call (retried (mk_with_retries 1) func)) d kwargs h
      = (Return (length h1), h1 ++ [Result_of_data VNone d])
    ∧ exception (Result_of_data VNone d) = None
    ∧ data (Result_of_data VNone d) = VNone.
Proof.
  intros Hfail.
  destruct (Hfail ((d, kwargs), 1%Z) h) as (e & h1 & Hf & He).
  exists e, h1. split; [done|]. split; [|done].
  apply _func_wrapper_plain; [|done].
  rewrite retried_call.
  change (py_range 1 (attempts (mk_with_retries 1) + 1)) with [1%Z].
  rewrite for_returning_cons.
  by rewrite (bind_Return _ _ _ _ _
                (attempt_body_swallow (mk_with_retries 1) _ _ _ _ _ _
                   Hf He ltac:(done))).
Qed.

Lemma flaky_task_always_raises : always_raises flaky_task.
Proof.
  intros x s. exists (PyExc OSError "unreachable"), s. split; reflexivity.
Qed.

Lemma retried_once_failure_leaves_no_trace_witness :
  ∃ (e : BaseException) (h1 : heap),
    c_call flaky_task ((ntd_for runner_bad host_a, []), 1%Z) [] = (Raise e, h1)
    ∧ _func_wrapper (call (retried (mk_with_retries 1) flaky_task))
                    (ntd_for runner_bad host_a) [] []
      = (Return (length h1),
         h1 ++ [Result_of_data VNone (ntd_for runner_bad host_a)])
    ∧ exception (Result_of_data VNone (ntd_for runner_bad host_a)) = None
    ∧ data (Result_of_data VNone (ntd_for runner_bad host_a)) = VNone.
Proof.
  apply (retried_once_failure_leaves_no_trace flaky_task
           (ntd_for runner_bad host_a) [] []).
  exact flaky_task_always_raises.
Defined.

(** X7.  The same task decorated with [with_retries(attempts)],
    [attempts >= 2]: the wrapper of the runner records the exception of the
    attempt numbered [attempts - 1] in the [Result] of the host. *)
Theorem retried_failure_is_recorded
    (func : Callable heap ((NornirTaskData * Kwargs) * Z)) (n : Z)
    (d : NornirTaskData) (kwargs : Kwargs) (h : heap) :
  always_raises func →
  (2 ≤ n)%Z →
  ∃ (e : BaseException) (h0 h1 : heap),
    c_call func ((d, kwargs), (n - 1)%Z) h0 = (Raise e, h1)
    ∧ _func_wrapper (call (retried (mk_with_retries n) func)) d kwargs h
      = (Return (length h1), h1 ++ [Result_of_exception d e])
    ∧ exception (Result_of_exception d e) = Some e.
Proof.
  intros Hfail Hn.
  destruct (failing_loop (mk_with_retries n) func (d, kwargs)
              (Z.to_nat (n - 2)) 1 h [] Hfail)
    as (e & h0 & h1 & Hlast & He & Hloop).
  { simpl. lia. }
  replace (1 + Z.of_nat (Z.to_nat (n - 2)))%Z with (n - 1)%Z in Hlast by lia.
  exists e, h0, h1. split; [done|]. split; [|done].
  apply _func_wrapper_caught; [|done].
  rewrite retried_call.
  by apply (loop_of_logging_calls _ _ _ _ _ _ _ _ _ Hloop).
Qed.

Lemma retried_failure_is_recorded_witness :
  ∃ (e : BaseException) (h0 h1 : heap),
    c_call flaky_task ((ntd_for runner_bad host_a, []), (3 - 1)%Z) h0
    = (Raise e, h1)
    ∧ _func_wrapper (call (retried (mk_with_retries 3) flaky_task))
                    (ntd_for runner_bad host_a) [] []
      = (Return (length h1),
         h1 ++ [Result_of_exception (ntd_for runner_bad host_a) e])
    ∧ exception (Result_of_exception (ntd_for runner_bad host_a) e) = Some e.
Proof.
  apply (retried_failure_is_recorded flaky_task 3
           (ntd_for runner_bad host_a) [] []).
  - exact flaky_task_always_raises.
  - lia.
Defined.

(** ** The dispatched hosts, continued *)

Lemma filter_all {A} (P : A → Prop) `{∀ x, Decision (P x)} (l : list A) :
  (∀ x, x ∈ l → P x) → filter P l = l.
Proof.
  induction l as [|x l IH]; intros Hall; [done|].
  rewrite filter_cons_True by (apply Hall; by left).
  f_equal. apply IH. intros y Hy. apply Hall. by right.
Qed.

Lemma filter_none {A} (P : A → Prop) `{∀ x, Decision (P x)} (l : list A) :
  (∀ x, x ∈ l → ¬ P x) → filter P l = [].
Proof.
  induction l as [|x l IH]; intros Hall; [done|].
  rewrite filter_cons_False by (apply Hall; by left).
  apply IH. intros y Hy. apply Hall. by right.
Qed.

(** X8.  With both flags set every host of the inventory is dispatched
    exactly once: the dispatched hosts are the inventory hosts in another
    order (those that have not failed first). *)
Theorem both_flags_dispatch_the_inventory (t : Task) (n : Nornir)
    (nm : option string) (sev : Z) :
  hosts (TaskRunner_init t n nm sev true true) ≡ₚ (inventory_hosts n).*2
  ∧ length (hosts (TaskRunner_init t n nm sev true true))
    = length (inventory_hosts n).
Proof.
  assert (Hperm : hosts (TaskRunner_init t n nm sev true true)
                  ≡ₚ (inventory_hosts n).*2).
  { rewrite hosts_init, <-fmap_app. apply fmap_Permutation.
    rewrite (comm (++)).
    apply (filter_app_complement (λ item : string * Host,
                                    item.1 ∈ data_failed_hosts n)). }
  split; [done|]. by rewrite Hperm, length_fmap.
Qed.

(** X9.  With one flag set the dispatched hosts come in the order of the
    inventory, each entry of the inventory at most once. *)
Theorem one_flag_keeps_the_inventory_order (t : Task) (n : Nornir)
    (nm : option string) (sev : Z) :
  hosts (TaskRunner_init t n nm sev true false)
    `sublist_of` (inventory_hosts n).*2
  ∧ hosts (TaskRunner_init t n nm sev false true)
      `sublist_of` (inventory_hosts n).*2.
Proof.
  rewrite !hosts_init, app_nil_r. simpl.
  split; apply fmap_sublist, sublist_filter.
Qed.

(** X10.  When no host of the inventory is in the failed set, the default
    flags dispatch the whole inventory, in its order, and [on_failed] alone
    dispatches no host. *)
Theorem no_failed_hosts (t : Task) (n : Nornir) (nm : option string)
    (sev : Z) :
  (∀ k H, (k, H) ∈ inventory_hosts n → k ∉ data_failed_hosts n) →
  hosts (TaskRunner_init t n nm sev true false) = (inventory_hosts n).*2
  ∧ hosts (TaskRunner_init t n nm sev false true) = [].
Proof.
  intros Hnone. rewrite !hosts_init, app_nil_r. simpl. split.
  - f_equal. apply filter_all. intros [k H] Hin. simpl. by eapply Hnone.
  - rewrite filter_none; [done|].
    intros [k H] Hin Hk. simpl in Hk. by eapply Hnone.
Qed.

Lemma no_failed_hosts_witness :
  hosts (TaskRunner_init task_seven (mkNornir 2 (inventory_hosts fleet) ∅)
                         None logging_INFO true false)
  = (inventory_hosts (mkNornir 2 (inventory_hosts fleet) ∅)).*2
  ∧ hosts (TaskRunner_init task_seven (mkNornir 2 (inventory_hosts fleet) ∅)
                           None logging_INFO false true) = [].
Proof.
  apply (no_failed_hosts task_seven (mkNornir 2 (inventory_hosts fleet) ∅)
           None logging_INFO).
  intros k H _. simpl. apply not_elem_of_empty.
Defined.

(** ** What every aggregate satisfies *)

Lemma foldl_agg_store_inv h rs agg :
  (∀ k l, entries agg !! k = Some l →
     ∃ r, h !! l = Some r ∧ host_name (host (ntd r)) = k) →
  (∀ k l, entries (foldl (agg_store h) agg rs) !! k = Some l →
     ∃ r, h !! l = Some r ∧ host_name (host (ntd r)) = k)
  ∧ size (entries (foldl (agg_store h) agg rs))
    ≤ size (entries agg) + length rs.
Proof.
  revert agg. induction rs as [|l0 rs IH]; intros agg Hagg; simpl.
  - split; [done|lia].
  - destruct (IH (agg_store h agg l0)) as [IHkeys IHsize].
    + unfold agg_store. destruct (h !! l0) as [r0|] eqn:Hl0; [|done].
      simpl. intros k l Hk.
      destruct (decide (host_name (host (ntd r0)) = k)) as [<-|Hne].
      * rewrite lookup_insert_eq in Hk. injection Hk as <-. eauto.
      * rewrite lookup_insert_ne in Hk by done. by apply Hagg.
    + split; [done|].
      etrans; [exact IHsize|].
      assert (size (entries (agg_store h agg l0)) ≤ S (size (entries agg)));
        [|lia].
      unfold agg_store. destruct (h !! l0) as [r0|]; [|lia]. simpl.
      rewrite map_size_insert. destruct (entries agg !! _); simpl; lia.
Qed.

(** X11.  Whatever the task does, an aggregate that [run] returns has at
    most as many entries as hosts were dispatched, and each entry is filed
    under the host name that the [Result] it refers to carries in its
    context when [run] returns. *)
Theorem aggregate_keys_follow_the_contexts (self : TaskRunner)
    (kwargs : Kwargs) (order : list nat) (h h' : heap)
    (agg : AggregatedResults) :
  run self kwargs order h = (Return agg, h') →
  size (entries agg) ≤ length (hosts self)
  ∧ ∀ k l, entries agg !! k = Some l →
      ∃ r, h' !! l = Some r ∧ host_name (host (ntd r)) = k.
Proof.
  rewrite run_unfold.
  destruct (_run_sync self kwargs order h) as [[rs|e] h1] eqn:Hrun; [|done].
  intros [= <- <-].
  destruct (run_jobs_inv _ _ _ _ _ Hrun) as (_ & _ & Hlen & _).
  rewrite length_map in Hlen.
  destruct (foldl_agg_store_inv h1 rs
              (mkAggregatedResults (runner_name self) ∅)) as [Hkeys Hsize].
  { intros k l Hk. simpl in Hk. by rewrite lookup_empty in Hk. }
  split; [|done]. simpl in Hsize. rewrite map_size_empty in Hsize. lia.
Qed.

Lemma aggregate_keys_follow_the_contexts_witness :
  size (entries (mkAggregatedResults "function" {["b" := 0]}))
  ≤ length (hosts runner_cached)
  ∧ ∀ k l,
      entries (mkAggregatedResults "function" {["b" := 0]}) !! k = Some l →
      ∃ r, [Result_of_data (VStr "ok") (ntd_for runner_cached host_b)] !! l
           = Some r
           ∧ host_name (host (ntd r)) = k.
Proof.
  apply (aggregate_keys_follow_the_contexts runner_cached [] []
           store_with_cached).
  vm_compute. reflexivity.
Defined.

(** ** Hosts that share a name *)

(** The entries made from results that carry the contexts of their hosts:
    a host after which no host of the same name comes has its result under
    its name. *)
Lemma foldl_agg_store_last h (Hs : list Host) (rs : list loc) agg :
  Forall2 (λ H l, ∃ r, h !! l = Some r ∧ host (ntd r) = H) Hs rs →
  (∀ i H l, Hs !! i = Some H → rs !! i = Some l →
     (∀ j H', i < j → Hs !! j = Some H' → host_name H' ≠ host_name H) →
     entries (foldl (agg_store h) agg rs) !! host_name H = Some l)
  ∧ (∀ k, k ∉ host_name <$> Hs →
       entries (foldl (agg_store h) agg rs) !! k = entries agg !! k).
Proof.
  intros Hall. revert agg.
  induction Hall as [|H l Hs rs (r & Hr & Hhost) Hall IH]; intros agg.
  - split; [by intros i H l Hi|done].
  - simpl foldl.
    destruct (IH (agg_store h agg l)) as [IHin IHout].
    assert (Hstore : entries (agg_store h agg l)
                     = <[host_name H := l]> (entries agg)).
    { unfold agg_store. by rewrite Hr, Hhost. }
    split.
    + intros [|i] H' l' Hi Hl Hlast; simpl in Hi, Hl.
      * injection Hi as <-. injection Hl as <-.
        rewrite IHout, Hstore; [apply lookup_insert_eq|].
        intros Hin. apply list_elem_of_fmap in Hin as (H2 & Heq & Hin).
        apply list_elem_of_lookup in Hin as [j Hj].
        by apply (Hlast (S j) H2 ltac:(lia) Hj).
      * apply (IHin i H' l' Hi Hl).
        intros j H2 Hij Hj. apply (Hlast (S j) H2 ltac:(lia) Hj).
    + intros k Hk. rewrite fmap_cons in Hk.
      apply not_elem_of_cons in Hk as [Hne Hk].
      rewrite (IHout _ Hk), Hstore. by apply lookup_insert_ne.
Qed.

(** What the wrappers hand back, host by host, when they hand back pairwise
    different objects. *)
Lemma run_sync_attributed self kwargs order h rs h' :
  keeps_results (call (task self)) →
  returns_live (call (task self)) →
  _run_sync self kwargs order h = (Return rs, h') →
  NoDup rs →
  length rs = length (hosts self)
  ∧ ∀ i H, hosts self !! i = Some H →
      ∃ l r hi hi',
        rs !! i = Some l ∧ h' !! l = Some r ∧ ntd r = ntd_for self H
        ∧ _func_wrapper (call (task self)) (ntd_for self H) kwargs hi
          = (Return l, hi')
        ∧ hi' !! l = Some r.
Proof.
  intros Hkeep Hlive Hrun Hnodup.
  set (jobs := map (λ H, _func_wrapper (call (task self)) (ntd_for self H)
                                       kwargs) (hosts self)).
  assert (Hframed : Forall framed jobs).
  { apply Forall_fmap, Forall_forall. intros H _.
    by apply _func_wrapper_framed. }
  destruct (run_jobs_attributed jobs order h rs h' Hframed Hrun Hnodup)
    as [Hlen Hattr].
  unfold jobs in Hlen. rewrite length_map in Hlen.
  split; [done|]. intros i H Hi.
  destruct (lookup_lt_is_Some_2 rs i) as [l Hl].
  { rewrite Hlen. by eapply lookup_lt_Some. }
  destruct (Hattr i l Hl) as (job & hi & hi' & r & Hjob & Hw & Hr & Hr').
  unfold jobs in Hjob.
  change (map ?f ?l) with (f <$> l) in Hjob.
  rewrite list_lookup_fmap, Hi in Hjob. injection Hjob as <-.
  destruct (_func_wrapper_attributes _ _ _ _ _ _ Hlive Hw) as (r0 & Hr0 & Hd).
  rewrite Hr in Hr0. injection Hr0 as <-.
  exists l, r, hi, hi'. done.
Qed.

(** X12.  Host names need not differ for [run] to return.  When several
    dispatched hosts have one name, the entry under that name is the
    [Result] of the one that comes last in [self.hosts]; the results of
    the others are not in the aggregate under that name.  (The task leaves
    existing [Result] objects as they are and no [Result] object is handed
    back for two hosts.) *)
Theorem last_host_of_a_name_wins (self : TaskRunner) (kwargs : Kwargs)
    (order : list nat) (h h' : heap) (rs : list loc) (i : nat) (H : Host) :
  keeps_results (call (task self)) →
  returns_live (call (task self)) →
  (if iscoroutinefunction (kind (task self))
   then _run_async self kwargs order
   else _run_sync self kwargs order) h = (Return rs, h') →
  NoDup rs →
  hosts self !! i = Some H →
  (∀ j H', i < j → hosts self !! j = Some H' → host_name H' ≠ host_name H) →
  ∃ (agg : AggregatedResults) (l : loc) (r : Result),
    run self kwargs order h = (Return agg, h')
    ∧ rs !! i = Some l
    ∧ entries agg !! host_name H = Some l
    ∧ h' !! l = Some r
    ∧ ntd r = ntd_for self H
    ∧ ∀ i0 l0, i0 ≠ i → rs !! i0 = Some l0 →
        entries agg !! host_name H ≠ Some l0.
Proof.
  intros Hkeep Hlive Hrun Hnodup Hi Hlast.
  assert (Hrun' : _run_sync self kwargs order h = (Return rs, h')).
  { by destruct (iscoroutinefunction _). }
  destruct (run_sync_attributed self kwargs order h rs h')
    as [Hlen Hper]; try done.
  assert (Hall : Forall2 (λ H l, ∃ r, h' !! l = Some r ∧ host (ntd r) = H)
                         (hosts self) rs).
  { apply Forall2_same_length_lookup_2; [done|].
    intros j Hj l Hhj Hl.
    destruct (Hper j Hj Hhj) as (l' & r & _ & _ & Hl' & Hr & Hd & _).
    rewrite Hl in Hl'. injection Hl' as <-.
    exists r. by rewrite Hd. }
  destruct (foldl_agg_store_last h' _ _
              (mkAggregatedResults (runner_name self) ∅) Hall) as [Hin _].
  destruct (Hper i H Hi) as (l & r & _ & _ & Hl & Hr & Hd & _).
  eexists. exists l, r. rewrite run_unfold, Hrun'.
  split; [done|]. split; [done|].
  pose proof (Hin i H l Hi Hl Hlast) as Hentry.
  split; [done|]. split; [done|]. split; [done|].
  intros i0 l0 Hne Hl0. rewrite Hentry. intros [= <-].
  apply Hne. by eapply NoDup_lookup.
Qed.

Lemma task_seven_keeps_results : keeps_results (call task_seven).
Proof. intros d kwargs h o h' l r. simpl. by intros [= <- <-]. Qed.

Lemma task_seven_returns_live : returns_live (call task_seven).
Proof. by intros d kwargs h l h'. Qed.

Lemma last_host_of_a_name_wins_witness :
  ∃ (agg : AggregatedResults) (l : loc) (r : Result),
    run runner_twins [] [] [] = (Return agg,
      [Result_of_data (VInt 7)
         (ntd_for runner_twins (mkHost "same" [("site", "north")]));
       Result_of_data (VInt 7)
         (ntd_for runner_twins (mkHost "same" [("site", "south")]))])
    ∧ [0; 1] !! 1 = Some l
    ∧ entries agg !! host_name (mkHost "same" [("site", "south")]) = Some l
    ∧ [Result_of_data (VInt 7)
         (ntd_for runner_twins (mkHost "same" [("site", "north")]));
       Result_of_data (VInt 7)
         (ntd_for runner_twins (mkHost "same" [("site", "south")]))] !! l
      = Some r
    ∧ ntd r = ntd_for runner_twins (mkHost "same" [("site", "south")])
    ∧ ∀ i0 l0, i0 ≠ 1 → [0; 1] !! i0 = Some l0 →
        entries agg !! host_name (mkHost "same" [("site", "south")])
        ≠ Some l0.
Proof.
  apply (last_host_of_a_name_wins runner_twins [] [] [] _ [0; 1] 1
           (mkHost "same" [("site", "south")])).
  - exact task_seven_keeps_results.
  - exact task_seven_returns_live.
  - reflexivity.
  - apply (bool_decide_unpack _). vm_compute. exact I.
  - reflexivity.
  - intros j H' Hj Hlook. destruct j as [|[|j]]; [lia|lia|done].
Defined.

(** ** Tasks that do not touch the store *)









(** ** Objects that the dispatch leaves alone *)

Lemma pool_exec_frame jobs order done_ h done' h' l r :
  Forall framed jobs →
  pool_exec jobs order done_ h = (Return done', h') →
  h !! l = Some r →
  (∀ i, done' !! i = Some l → done_ !! i = Some l) →
  h' !! l = Some r.
Proof.
  intros Hframed. revert done_ h.
  induction order as [|k order IH]; intros done_ h.
  - by intros [= <- <-].
  - rewrite pool_exec_cons.
    destruct (done_ !! k) as [lk|] eqn:Hk; [by apply IH|].
    destruct (jobs !! k) as [job|] eqn:Hjob; [|by apply IH].
    unfold bind. destruct (job h) as [[lk|e] h1] eqn:Hrun; [|done].
    intros Hrest Hl Hold.
    pose proof (pool_exec_mono _ _ _ _ _ _ Hrest) as Hsub.
    assert (Hjobframed : framed job).
    { eapply Forall_forall; [exact Hframed|].
      by eapply list_elem_of_lookup_2. }
    destruct (Hjobframed _ _ _ Hrun) as [_ Hothers].
    assert (Hne : l ≠ lk).
    { intros ->. assert (done_ !! k = Some lk) as Hcontra; [|congruence].
      apply Hold. eapply lookup_weaken; [|exact Hsub].
      by rewrite lookup_insert_eq. }
    apply (IH _ _ Hrest); [by apply Hothers|].
    intros i Hi. destruct (decide (k = i)) as [->|Hki].
    + apply Hold in Hi. congruence.
    + rewrite lookup_insert_ne by done. by apply Hold.
Qed.

(** X14.  A [Result] object that was in the store before the dispatch, and
    that no wrapper hands back, is in the store after the dispatch as it
    was before, provided the task itself leaves existing [Result] objects
    as they are. *)
Theorem dispatch_leaves_other_Results_alone (self : TaskRunner)
    (kwargs : Kwargs) (order : list nat) (h h' : heap) (rs : list loc)
    (l : loc) (r : Result) :
  keeps_results (call (task self)) →
  returns_live (call (task self)) →
  (if iscoroutinefunction (kind (task self))
   then _run_async self kwargs order
   else _run_sync self kwargs order) h = (Return rs, h') →
  h !! l = Some r →
  l ∉ rs →
  h' !! l = Some r.
Proof.
  intros Hkeep Hlive Hrun Hl Hnotin.
  assert (Hrun' : _run_sync self kwargs order h = (Return rs, h')).
  { by destruct (iscoroutinefunction _). }
  destruct (run_jobs_inv _ _ _ _ _ Hrun') as (done' & Hexec & Hlen & Hrs & Hdom).
  apply (pool_exec_frame _ _ ∅ h done' h' l r) with (2 := Hexec); [|done|].
  - apply (proj2 (Forall_fmap _ _ _)), Forall_forall. intros H _.
    by apply _func_wrapper_framed.
  - intros i Hi. exfalso. apply Hnotin.
    destruct (Hrs i) as [_ Heq]; [apply Hdom; eauto|].
    rewrite Hi in Heq. by eapply list_elem_of_lookup_2.
Qed.

Lemma dispatch_leaves_other_Results_alone_witness :
  [Result_of_data (VStr "ok") (mkNornirTaskData host_c fleet "earlier");
   Result_of_exception (ntd_for runner_bad_on_a host_a)
     (PyExc ValueError "boom");
   Result_of_data (VInt 7) (ntd_for runner_bad_on_a host_b)] !! 0
  = Some (Result_of_data (VStr "ok")
            (mkNornirTaskData host_c fleet "earlier")).
Proof.
  apply (dispatch_leaves_other_Results_alone runner_bad_on_a [] []
           store_with_cached _ [1; 2] 0).
  - exact task_bad_on_a_keeps_results.
  - exact task_bad_on_a_returns_live.
  - reflexivity.
  - reflexivity.
  - apply (bool_decide_unpack _). vm_compute. exact I.
Defined.

(** ** What leaves a wrapper, a dispatch, a handle *)

Lemma _func_wrapper_Raise_inv func d kwargs h e h' :
  _func_wrapper func d kwargs h = (Raise e, h') →
  func d kwargs h = (Raise e, h') ∧ isinstance_Exception e = false.
Proof.
  intros Hw. destruct (func d kwargs h) as [[v|e0] h1] eqn:Hf.
  - destruct (isinstance_Result v) eqn:Hv.
    + destruct v; try done.
      by rewrite (_func_wrapper_Result _ _ _ _ _ _ Hf) in Hw.
    + by rewrite (_func_wrapper_plain _ _ _ _ _ _ Hf Hv) in Hw.
  - destruct (isinstance_Exception e0) eqn:He.
    + by rewrite (_func_wrapper_caught _ _ _ _ _ _ Hf He) in Hw.
    + rewrite (_func_wrapper_passes _ _ _ _ _ _ Hf He) in Hw.
      injection Hw as <- <-. done.
Qed.

(** X15.  The blocking wrapper raises exactly when the task raises
    something that is not an instance of [Exception]; it then raises that
    very exception and leaves the store as the task left it.  In
    particular it never raises an instance of [Exception]. *)
Theorem func_wrapper_raises_iff (func : TaskBody) (d : NornirTaskData)
    (kwargs : Kwargs) (h h' : heap) (e : BaseException) :
  _func_wrapper func d kwargs h = (Raise e, h')
  ↔ func d kwargs h = (Raise e, h') ∧ isinstance_Exception e = false.
Proof.
  split.
  - apply _func_wrapper_Raise_inv.
  - intros [Hf He]. by apply _func_wrapper_passes.
Qed.









(** ** The label, and the name in the contexts *)



(** ** [template_file] with filters of its own *)

(** X20.  Filters passed to [template_file] in a dict that is not empty are
    the filters the template is rendered with: the filters of the
    configuration play no part. *)
Theorem given_filters_are_used {Filter Merged : Type}
    (merge_two_dicts : Host → Kwargs → Merged)
    (render_from_file :
       string → string → Host → option (gmap string Filter) → Merged
       → outcome string)
    (task : CoreTask) (template path : string)
    (filters : gmap string Filter) (kwargs : Kwargs) :
  filters ≠ ∅ →
  template_file merge_two_dicts render_from_file task template path
                (Some filters) kwargs
  = match render_from_file template path (task_host task) (Some filters)
            (merge_two_dicts (task_host task) kwargs) with
    | Return text => Return (mkTaskResult (task_host task) text)
    | Raise e => Raise e
    end.
Proof.
  intros Hne. unfold template_file.
  assert (Htruthy : truthy (Some filters) = true).
  { simpl. by apply bool_decide_eq_true. }
  unfold py_or at 2. rewrite Htruthy. unfold py_or. by rewrite Htruthy.
Qed.

Lemma given_filters_are_used_witness :
  template_file (λ _ kwargs, kwargs) render_names core_task_a "motd.j2"
                "templates" (Some {["lower" := λ s : string, s]}) []
  = match render_names "motd.j2" "templates" (task_host core_task_a)
            (Some {["lower" := λ s : string, s]}) [] with
    | Return text => Return (mkTaskResult (task_host core_task_a) text)
    | Raise e => Raise e
    end.
Proof.
  apply (given_filters_are_used (λ _ kwargs, kwargs) render_names core_task_a
           "motd.j2" "templates" {["lower" := λ s : string, s]} []).
  apply insert_non_empty.
Defined.

(** ** The order of the invocations does not show *)


